(** * Flappy Bird with a tabular Q-learning agent: a model of [flappybird.py]

    The development embeds the simulation/decision loop of [flappybird.py]
    (Python 2, Pygame) and proves properties of the learning rule, the action
    selection, the state encoder, the bird's climb timer, the pipe queue, the
    two random streams and the quit path.

    Numbers are modelled as Python has them: arbitrary-precision integers
    ([Z]) and IEEE binary64 floats (the kernel's primitive [float]), with
    Python's coercion of an integer operand to a float written out.  The
    external libraries ([random], [math.cos], Pygame's mask collision and
    event queue) are interfaces the model is parametric in. *)

From Stdlib Require Import ZArith Lia ZifyNat List Bool Floats.
From stdpp Require Import base option list sorting gmap strings.

Set Warnings "-inexact-float".
Set Default Proof Using "Type".
Local Open Scope Z_scope.

(* ===================================================================== *)
(** * Python values and exceptions                                        *)
(* ===================================================================== *)

Module Py.

(** The exceptions the modelled statements can raise. *)
Inductive exn : Type :=
| OverflowError     (* int too large for a float; int() of an infinity *)
| ValueError        (* int() of a NaN *)
| IndexError        (* pipes[0] on an empty deque *)
| UnboundLocalError (* a local of main() read before its first assignment *).

Inductive result (A : Type) : Type :=
| Ok (a : A)
| Raise (e : exn).
Arguments Ok {A} a.
Arguments Raise {A} e.

Definition bind {A B} (r : result A) (k : A -> result B) : result B :=
  match r with
  | Ok a => k a
  | Raise e => Raise e
  end.

(** A Python number: an [int]/[long] or a [float]. *)
Inductive num : Type :=
| Int (z : Z)
| Float (f : float).

(** [float(z)]: the nearest double, ties to even; CPython raises
    [OverflowError] when that rounding leaves the finite range. *)
Definition nearest_double (z : Z) : float :=
  SF2Prim (binary_normalize prec emax z 0 false).

Definition float_of_int (z : Z) : result float :=
  let f := nearest_double z in
  if is_infinity f then Raise OverflowError else Ok f.

Definition to_float (v : num) : result float :=
  match v with
  | Int z => float_of_int z
  | Float f => Ok f
  end.

(** The integer a finite double [(-1)^s * m * 2^e] truncates to. *)
Definition truncate (s : bool) (m : positive) (e : Z) : Z :=
  cond_Zopp s (Z.shiftl (Z.pos m) e).

(** [int(f)]: truncation toward zero; [ValueError] on a NaN and
    [OverflowError] on an infinity. *)
Definition int_of_float (f : float) : result Z :=
  match Prim2SF f with
  | S754_zero _ => Ok 0
  | S754_finite s m e => Ok (truncate s m e)
  | S754_infinity _ => Raise OverflowError
  | S754_nan => Raise ValueError
  end.

Definition int (v : num) : result Z :=
  match v with
  | Int z => Ok z
  | Float f => int_of_float f
  end.

(** Mixed comparisons are exact in Python: the integer is not rounded to a
    double first.  [compare_int_float z f] orders [z] against [f]; a NaN is
    unordered. *)
Definition compare_int_float (z : Z) (f : float) : option comparison :=
  match Prim2SF f with
  | S754_nan => None
  | S754_infinity s => Some (if s then Gt else Lt)
  | S754_zero _ => Some (z ?= 0)
  | S754_finite s m e =>
      let v := cond_Zopp s (Z.pos m) in
      Some (if 0 <=? e then z ?= v * 2 ^ e else z * 2 ^ (- e) ?= v)
  end.

(** [a < b], [a <= b], [a > b], [a >= b] on numbers. *)
Definition lt (a b : num) : bool :=
  match a, b with
  | Int x, Int y => x <? y
  | Float x, Float y => PrimFloat.ltb x y
  | Int x, Float y =>
      match compare_int_float x y with Some Lt => true | _ => false end
  | Float x, Int y =>
      match compare_int_float y x with Some Gt => true | _ => false end
  end.

Definition le (a b : num) : bool :=
  match a, b with
  | Int x, Int y => x <=? y
  | Float x, Float y => PrimFloat.leb x y
  | Int x, Float y =>
      match compare_int_float x y with Some (Lt | Eq) => true | _ => false end
  | Float x, Int y =>
      match compare_int_float y x with Some (Gt | Eq) => true | _ => false end
  end.

Definition gt (a b : num) : bool := lt b a.
Definition ge (a b : num) : bool := le b a.

(** Binary arithmetic: two integers stay an integer; otherwise both
    operands are taken to floats and the float operation is applied. *)
Definition arith (iop : Z -> Z -> Z) (fop : float -> float -> float)
    (a b : num) : result num :=
  match a, b with
  | Int x, Int y => Ok (Int (iop x y))
  | _, _ =>
      bind (to_float a) (fun x =>
      bind (to_float b) (fun y => Ok (Float (fop x y))))
  end.

Definition add : num -> num -> result num := arith Z.add PrimFloat.add.
Definition sub : num -> num -> result num := arith Z.sub PrimFloat.sub.
Definition mul : num -> num -> result num := arith Z.mul PrimFloat.mul.

End Py.

#[global] Instance result_ret : MRet Py.result := @Py.Ok.
#[global] Instance result_bind : MBind Py.result :=
fun A B k r => Py.bind r k.

Abbreviation result := Py.result.
Abbreviation Ok := Py.Ok.
Abbreviation Raise := Py.Raise.

(* ===================================================================== *)
(** * Module-level constants and helpers                                  *)
(* ===================================================================== *)

Definition FPS : Z := 60.
Definition ANIMATION_SPEED : float := 0.18%float.
Definition WIN_WIDTH : Z := 284 * 2.
Definition WIN_HEIGHT : Z := 512.

(** [math.pi]. *)
Definition math_pi : float := 3.141592653589793%float.

(** [frames_to_msec(frames, fps=FPS)] is [1000.0 * frames / fps]; the loop
    calls it with [frames = 1] only. *)
Definition frames_to_msec (frames : Z) : float :=
  (1000.0 * Py.nearest_double frames / Py.nearest_double FPS)%float.

(** [msec_to_frames(milliseconds, fps=FPS)] is [fps * milliseconds / 1000.0]. *)
Definition msec_to_frames (milliseconds : Z) : float :=
  (Py.nearest_double (FPS * milliseconds) / 1000.0)%float.

(** The external libraries.  [random] is the module-level generator of
    Python's [random]: [getstate]/[setstate] copy its state, [seed a] puts it
    in a state that depends on [a] only, [randint a b] draws and advances.
    [math.cos] is the C library's cosine. *)
Class Random := {
  generator : Type;
  seed : Z -> generator;
  randint : Z -> Z -> generator -> Z * generator
}.

Class Libm := { cos : float -> float }.

(* ===================================================================== *)
(** * class Bird                                                          *)
(* ===================================================================== *)

Module Bird.

Definition WIDTH : Z := 32.
Definition HEIGHT : Z := 32.
Definition SINK_SPEED : float := 0.18%float.
Definition CLIMB_SPEED : float := 0.3%float.
Definition CLIMB_DURATION : float := 333.3%float.

(** [x] stays the integer it is created with; [y] and [msec_to_climb] are
    created from the integers 240 and 2 and are floats from the first
    [update] on.  Every use of them before that ([msec_to_climb > 0],
    [0 >= y], [y >= 480], arithmetic with a float) reads the same on the
    integer and on the float of the same value, so both are floats here. *)
Record t : Type := Build {
  x : Z;
  y : float;
  msec_to_climb : float
}.

(** [Bird.update(delta_frames=1)]. *)
Definition update `{Libm} (self : t) : t :=
  if Py.gt (Py.Float (msec_to_climb self)) (Py.Int 0) then
    let frac_climb_done := (1 - msec_to_climb self / CLIMB_DURATION)%float in
    {| x := x self;
       y := (y self - CLIMB_SPEED * frames_to_msec 1 *
                      (1 - cos (frac_climb_done * math_pi)))%float;
       msec_to_climb := (msec_to_climb self - frames_to_msec 1)%float |}
  else
    {| x := x self;
       y := (y self + SINK_SPEED * frames_to_msec 1)%float;
       msec_to_climb := msec_to_climb self |}.

(** [bird.msec_to_climb = Bird.CLIMB_DURATION]. *)
Definition flap (self : t) : t :=
  {| x := x self; y := y self; msec_to_climb := CLIMB_DURATION |}.

End Bird.

(* ===================================================================== *)
(** * class PipePair                                                      *)
(* ===================================================================== *)

Module PipePair.

Definition WIDTH : Z := 80.
Definition PIECE_HEIGHT : Z := 32.
Definition ADD_INTERVAL : Z := 3000.

(** [ident] stands for the object's identity ([old_pipe is not pipes[0]]):
    the serial number of the allocation. *)
Record t : Type := Build {
  ident : nat;
  x : float;
  score_counted : bool;
  top_pieces : Z;
  bottom_pieces : Z
}.

(** [int((WIN_HEIGHT - 3*Bird.HEIGHT - 3*PIECE_HEIGHT) / PIECE_HEIGHT)], an
    integer division in Python 2. *)
Definition total_pipe_body_pieces : Z :=
  (WIN_HEIGHT - 3 * Bird.HEIGHT - 3 * PIECE_HEIGHT) / PIECE_HEIGHT.

(** [PipePair.__init__(pipe_end_img, pipe_body_img, random_state)]: the
    images are left out.  Returns the new pipe, the updated [random_state]
    list and the state the module-level generator is left in. *)
Definition init `{Random} (serial : nat)
    (random_state : generator * generator) (live : generator)
  : t * (generator * generator) * generator :=
  let live := random_state.1 in                 (* random.setstate(random_state[0]) *)
  let '(drawn, live) := randint 1 total_pipe_body_pieces live in
  let random_state := (live, random_state.2) in (* random_state[0] = random.getstate() *)
  let bottom := drawn in
  let top := total_pipe_body_pieces - bottom in
  ({| ident := serial;
      x := Py.nearest_double (WIN_WIDTH - 1);
      score_counted := false;
      top_pieces := top + 1;
      bottom_pieces := bottom + 1 |},
   random_state, live).

(** [-PipePair.WIDTH < self.x < WIN_WIDTH]. *)
Definition visible (self : t) : bool :=
  Py.lt (Py.Int (- WIDTH)) (Py.Float (x self)) &&
  Py.lt (Py.Float (x self)) (Py.Int WIN_WIDTH).

(** [self.x -= ANIMATION_SPEED * frames_to_msec(delta_frames)]. *)
Definition update (self : t) : t :=
  {| ident := ident self;
     x := (x self - ANIMATION_SPEED * frames_to_msec 1)%float;
     score_counted := score_counted self;
     top_pieces := top_pieces self;
     bottom_pieces := bottom_pieces self |}.

Definition count_score (self : t) : t :=
  {| ident := ident self;
     x := x self;
     score_counted := true;
     top_pieces := top_pieces self;
     bottom_pieces := bottom_pieces self |}.

End PipePair.

(** Pygame: [pygame.sprite.collide_mask(pipe, bird)] on the masks in use at
    clock reading [ticks] (the bird's mask follows [pygame.time.get_ticks()]). *)
Class Pygame := { collide_mask : Z -> PipePair.t -> Bird.t -> bool }.

(* ===================================================================== *)
(** * The value table and the agent's functions                           *)
(* ===================================================================== *)

(** A state is [(vertical offset, horizontal offset, dead)]; a key of the
    table is [(state, action)]. *)
Definition State : Type := Z * Z * bool.
Abbreviation Table := (gmap (State * bool) Py.num).

(** [dict.get(key, 0)]. *)
Definition get (dict : Table) (key : State * bool) : Py.num :=
  default (Py.Int 0) (dict !! key).

(** [get_max_reward(state, dict, action)]. *)
Definition get_max_reward (state : State) (dict : Table) (action : bool) : Py.num :=
  if Py.gt (get dict (state, action)) (get dict (state, negb action))
  then get dict (state, action)
  else get dict (state, negb action).

(** [determine_action(state, dict, random_state, score, max_score)]: the
    returned action, the updated [random_state] list and the state the
    module-level generator is left in. *)
Definition determine_action `{Random} (state : State) (dict : Table)
    (random_state : generator * generator) (live : generator)
    (score max_score : Z)
  : bool * (generator * generator) * generator :=
  let live := random_state.2 in                 (* random.setstate(random_state[1]) *)
  let state_click := get dict (state, true) in
  let state_nothing := get dict (state, false) in
  let '(value, live) := randint 1 10 live in
  let random_state := (random_state.1, live) in (* random_state[1] = random.getstate() *)
  if (value <? 3) && (max_score <=? score) then
    let '(value, live) := randint 0 1 live in
    let random_state := (random_state.1, live) in
    if value =? 1 then (true, random_state, live)
    else (false, random_state, live)
  else if Py.gt state_click state_nothing then (true, random_state, live)
  else (false, random_state, live).

(** The learning rule both call sites write out,
    [q + .7*(reward + gamma*max_reward - q)] with [q = dict.get(key, 0)]. *)
Definition learn (gamma : float) (reward : Z) (max_reward q : Py.num)
  : result Py.num :=
  discounted ← Py.mul (Py.Float gamma) max_reward;
  target ← Py.add (Py.Int reward) discounted;
  delta ← Py.sub target q;
  scaled ← Py.mul (Py.Float 0.7) delta;
  Py.add q scaled.

(** [(int(bird.y - (512 - pipes[0].bottom_pieces*32 - 27)),
      int(pipes[0].x - 50), dead)]. *)
Definition new_state (bird : Bird.t) (front : PipePair.t) (dead : bool)
  : result State :=
  dy ← Py.sub (Py.Float (Bird.y bird))
              (Py.Int (512 - PipePair.bottom_pieces front * 32 - 27));
  vertical ← Py.int dy;
  dx ← Py.sub (Py.Float (PipePair.x front)) (Py.Int 50);
  horizontal ← Py.int dx;
  Ok (vertical, horizontal, dead).

(* ===================================================================== *)
(** * main(): the game state                                              *)
(* ===================================================================== *)

(** Pygame events, as far as the loop tells them apart. *)
Inductive Event : Type :=
| QUIT
| KEYUP (key : Z)
| OtherEvent.

Definition K_ESCAPE : Z := 27.

(** What [str(dict)] and [str(max_score)] write. *)
Inductive Text : Type :=
| str_dict (d : Table)
| str_int (z : Z).

(** What one pass of the loop takes from outside: the event queue and the
    clock readings at its two collision tests. *)
Record Input : Type := {
  events : list Event;
  ticks_interval : Z;
  ticks_frame : Z
}.

Section Main.
Context `{Random} `{Libm} `{Pygame}.

(** The locals of [main], then what lies outside them: [live], the state of
    the module-level generator; [files], the file system; [serial], the
    number of pipes allocated so far.  [old_pipe] and [dead] are unbound
    ([None]) until their first assignment and keep their value from one life
    to the next. *)
Record Game : Type := {
  dict : Table;
  random_state : generator * generator;
  max_score : Z;
  old_pipe : option nat;
  dead : option bool;
  bird : Bird.t;
  pipes : list PipePair.t;
  frame_clock : Z;
  score : Z;
  done : bool;
  paused : bool;
  state : State;
  action : bool;
  previous_state : State;
  previous_action : bool;
  early_state : State;
  early_action : bool;
  fps_to_next_action : Z;
  live : generator;
  files : gmap string Text;
  serial : nat
}.

Definition set_dict (v : Table) (g : Game) : Game :=
  Build_Game v (random_state g) (max_score g) (old_pipe g) (dead g) (bird g)
    (pipes g) (frame_clock g) (score g) (done g) (paused g) (state g)
    (action g) (previous_state g) (previous_action g) (early_state g)
    (early_action g) (fps_to_next_action g) (live g) (files g) (serial g).

Definition set_random_state (v : generator * generator) (g : Game) : Game :=
  Build_Game (dict g) v (max_score g) (old_pipe g) (dead g) (bird g) (pipes
    g) (frame_clock g) (score g) (done g) (paused g) (state g) (action g)
    (previous_state g) (previous_action g) (early_state g) (early_action g)
    (fps_to_next_action g) (live g) (files g) (serial g).

Definition set_max_score (v : Z) (g : Game) : Game :=
  Build_Game (dict g) (random_state g) v (old_pipe g) (dead g) (bird g)
    (pipes g) (frame_clock g) (score g) (done g) (paused g) (state g)
    (action g) (previous_state g) (previous_action g) (early_state g)
    (early_action g) (fps_to_next_action g) (live g) (files g) (serial g).

Definition set_old_pipe (v : option nat) (g : Game) : Game :=
  Build_Game (dict g) (random_state g) (max_score g) v (dead g) (bird g)
    (pipes g) (frame_clock g) (score g) (done g) (paused g) (state g)
    (action g) (previous_state g) (previous_action g) (early_state g)
    (early_action g) (fps_to_next_action g) (live g) (files g) (serial g).

Definition set_dead (v : option bool) (g : Game) : Game :=
  Build_Game (dict g) (random_state g) (max_score g) (old_pipe g) v (bird g)
    (pipes g) (frame_clock g) (score g) (done g) (paused g) (state g)
    (action g) (previous_state g) (previous_action g) (early_state g)
    (early_action g) (fps_to_next_action g) (live g) (files g) (serial g).

Definition set_bird (v : Bird.t) (g : Game) : Game :=
  Build_Game (dict g) (random_state g) (max_score g) (old_pipe g) (dead g) v
    (pipes g) (frame_clock g) (score g) (done g) (paused g) (state g)
    (action g) (previous_state g) (previous_action g) (early_state g)
    (early_action g) (fps_to_next_action g) (live g) (files g) (serial g).

Definition set_pipes (v : list PipePair.t) (g : Game) : Game :=
  Build_Game (dict g) (random_state g) (max_score g) (old_pipe g) (dead g)
    (bird g) v (frame_clock g) (score g) (done g) (paused g) (state g)
    (action g) (previous_state g) (previous_action g) (early_state g)
    (early_action g) (fps_to_next_action g) (live g) (files g) (serial g).

Definition set_frame_clock (v : Z) (g : Game) : Game :=
  Build_Game (dict g) (random_state g) (max_score g) (old_pipe g) (dead g)
    (bird g) (pipes g) v (score g) (done g) (paused g) (state g) (action g)
    (previous_state g) (previous_action g) (early_state g) (early_action g)
    (fps_to_next_action g) (live g) (files g) (serial g).

Definition set_score (v : Z) (g : Game) : Game :=
  Build_Game (dict g) (random_state g) (max_score g) (old_pipe g) (dead g)
    (bird g) (pipes g) (frame_clock g) v (done g) (paused g) (state g)
    (action g) (previous_state g) (previous_action g) (early_state g)
    (early_action g) (fps_to_next_action g) (live g) (files g) (serial g).

Definition set_done (v : bool) (g : Game) : Game :=
  Build_Game (dict g) (random_state g) (max_score g) (old_pipe g) (dead g)
    (bird g) (pipes g) (frame_clock g) (score g) v (paused g) (state g)
    (action g) (previous_state g) (previous_action g) (early_state g)
    (early_action g) (fps_to_next_action g) (live g) (files g) (serial g).

Definition set_state (v : State) (g : Game) : Game :=
  Build_Game (dict g) (random_state g) (max_score g) (old_pipe g) (dead g)
    (bird g) (pipes g) (frame_clock g) (score g) (done g) (paused g) v
    (action g) (previous_state g) (previous_action g) (early_state g)
    (early_action g) (fps_to_next_action g) (live g) (files g) (serial g).

Definition set_action (v : bool) (g : Game) : Game :=
  Build_Game (dict g) (random_state g) (max_score g) (old_pipe g) (dead g)
    (bird g) (pipes g) (frame_clock g) (score g) (done g) (paused g) (state
    g) v (previous_state g) (previous_action g) (early_state g)
    (early_action g) (fps_to_next_action g) (live g) (files g) (serial g).

Definition set_previous_state (v : State) (g : Game) : Game :=
  Build_Game (dict g) (random_state g) (max_score g) (old_pipe g) (dead g)
    (bird g) (pipes g) (frame_clock g) (score g) (done g) (paused g) (state
    g) (action g) v (previous_action g) (early_state g) (early_action g)
    (fps_to_next_action g) (live g) (files g) (serial g).

Definition set_previous_action (v : bool) (g : Game) : Game :=
  Build_Game (dict g) (random_state g) (max_score g) (old_pipe g) (dead g)
    (bird g) (pipes g) (frame_clock g) (score g) (done g) (paused g) (state
    g) (action g) (previous_state g) v (early_state g) (early_action g)
    (fps_to_next_action g) (live g) (files g) (serial g).

Definition set_early_state (v : State) (g : Game) : Game :=
  Build_Game (dict g) (random_state g) (max_score g) (old_pipe g) (dead g)
    (bird g) (pipes g) (frame_clock g) (score g) (done g) (paused g) (state
    g) (action g) (previous_state g) (previous_action g) v (early_action g)
    (fps_to_next_action g) (live g) (files g) (serial g).

Definition set_early_action (v : bool) (g : Game) : Game :=
  Build_Game (dict g) (random_state g) (max_score g) (old_pipe g) (dead g)
    (bird g) (pipes g) (frame_clock g) (score g) (done g) (paused g) (state
    g) (action g) (previous_state g) (previous_action g) (early_state g) v
    (fps_to_next_action g) (live g) (files g) (serial g).

Definition set_fps_to_next_action (v : Z) (g : Game) : Game :=
  Build_Game (dict g) (random_state g) (max_score g) (old_pipe g) (dead g)
    (bird g) (pipes g) (frame_clock g) (score g) (done g) (paused g) (state
    g) (action g) (previous_state g) (previous_action g) (early_state g)
    (early_action g) v (live g) (files g) (serial g).

Definition set_live (v : generator) (g : Game) : Game :=
  Build_Game (dict g) (random_state g) (max_score g) (old_pipe g) (dead g)
    (bird g) (pipes g) (frame_clock g) (score g) (done g) (paused g) (state
    g) (action g) (previous_state g) (previous_action g) (early_state g)
    (early_action g) (fps_to_next_action g) v (files g) (serial g).

Definition set_files (v : gmap string Text) (g : Game) : Game :=
  Build_Game (dict g) (random_state g) (max_score g) (old_pipe g) (dead g)
    (bird g) (pipes g) (frame_clock g) (score g) (done g) (paused g) (state
    g) (action g) (previous_state g) (previous_action g) (early_state g)
    (early_action g) (fps_to_next_action g) (live g) v (serial g).

Definition set_serial (v : nat) (g : Game) : Game :=
  Build_Game (dict g) (random_state g) (max_score g) (old_pipe g) (dead g)
    (bird g) (pipes g) (frame_clock g) (score g) (done g) (paused g) (state
    g) (action g) (previous_state g) (previous_action g) (early_state g)
    (early_action g) (fps_to_next_action g) (live g) (files g) v.

(** Lines 369-410: the start of a life.  Only what outlives a life is read
    from the state before. *)
Definition start_life (dict : Table) (max_score : Z) (old_pipe : option nat)
    (dead : option bool) (live : generator) (files : gmap string Text)
    (serial : nat) : Game :=
  let exploration := live in                    (* random_state[1] = random.getstate() *)
  let live := seed 0 in                         (* random.seed(0) *)
  let obstacle := live in                       (* random_state[0] = random.getstate() *)
  let state : State := (240 - 165, 567 - 50, false) in
  {| dict := dict;
     random_state := (obstacle, exploration);
     max_score := max_score;
     old_pipe := old_pipe;
     dead := dead;
     bird := {| Bird.x := 50;
                Bird.y := Py.nearest_double (WIN_HEIGHT / 2 - Bird.HEIGHT / 2);
                Bird.msec_to_climb := Py.nearest_double 2 |};
     pipes := [];
     frame_clock := 0;
     score := 0;
     done := false;
     paused := false;
     state := state;
     action := false;
     previous_state := state;
     previous_action := false;
     early_state := state;
     early_action := false;
     fps_to_next_action := 0;
     live := live;
     files := files;
     serial := serial |}.

(** The first pass of [while(1)]: an empty table, no best score, and the
    generator in whatever state the interpreter started it in. *)
Definition first_life (live0 : generator) : Game :=
  start_life ∅ 0 None None live0 ∅ 0.

(** A later pass of [while(1)]. *)
Definition new_life (g : Game) : Game :=
  start_life (dict g) (max_score g) (old_pipe g) (dead g) (live g) (files g)
             (serial g).

(* ===================================================================== *)
(** * main(): one pass of [while not done]                                *)
(* ===================================================================== *)

(** Lines 413-418. *)
Definition decide (g : Game) : Game :=
  if fps_to_next_action g =? 0 then
    let '(a, rs, lv) :=
      determine_action (state g) (dict g) (random_state g) (live g)
                       (score g) (max_score g) in
    let g := set_live lv (set_random_state rs (set_action a g)) in
    if a then set_bird (Bird.flap (bird g)) g else g
  else g.

(** [frame_clock % msec_to_frames(PipePair.ADD_INTERVAL)] is a float
    remainder by [180.0]; it is zero exactly when 180 divides the frame
    count (frame counts below [2^53] are exact as floats). *)
Definition frames_per_pipe : Z := 180.

(** Lines 427-430. *)
Definition spawn (g : Game) : Game :=
  if negb (paused g || negb (frame_clock g mod frames_per_pipe =? 0)) then
    let '(pp, rs, lv) := PipePair.init (serial g) (random_state g) (live g) in
    let queue := pipes g ++ [pp] in
    set_old_pipe (PipePair.ident <$> head queue)
      (set_pipes queue
        (set_serial (S (serial g))
          (set_live lv (set_random_state rs g))))
  else g.

(** [any(p.collides_with(bird) for p in pipes)]. *)
Definition any_collision (ticks : Z) (g : Game) : bool :=
  existsb (fun p => collide_mask ticks p (bird g)) (pipes g).

(** [0 >= bird.y or bird.y >= WIN_HEIGHT - Bird.HEIGHT]. *)
Definition out_of_bounds (b : Bird.t) : bool :=
  Py.ge (Py.Int 0) (Py.Float (Bird.y b)) ||
  Py.ge (Py.Float (Bird.y b)) (Py.Int (WIN_HEIGHT - Bird.HEIGHT)).

(** [pipes[0]]. *)
Definition front (g : Game) : result PipePair.t :=
  match pipes g with
  | p :: _ => Ok p
  | [] => Raise Py.IndexError
  end.

(** Lines 432-459. *)
Definition interval (i : Input) (g : Game) : result Game :=
  if fps_to_next_action g =? 15 then
    let hit := any_collision (ticks_interval i) g in
    let is_dead := hit || out_of_bounds (bird g) in
    let g := set_dead (Some is_dead) g in
    let g := if is_dead then set_done true g else g in
    p ← front g;
    next ← new_state (bird g) p is_dead;
    let reward := if is_dead then -1000 else 1 in
    let max_reward := get_max_reward (state g) (dict g) (action g) in
    let key := (previous_state g, previous_action g) in
    q ← learn 0.9 reward max_reward (get (dict g) key);
    let g := set_dict (<[key := q]> (dict g)) g in
    let g := set_early_state (previous_state g) g in
    let g := set_early_action (previous_action g) g in
    let g := set_previous_state (state g) g in
    let g := set_previous_action (action g) g in
    let g := set_state next g in
    Ok (set_fps_to_next_action 0 g)
  else Ok g.

(** Lines 468-480. *)
Definition bonus (g : Game) : result Game :=
  match old_pipe g with
  | None => Raise Py.UnboundLocalError
  | Some remembered =>
      p ← front g;
      if negb (Nat.eqb remembered (PipePair.ident p)) && (max_score g <? score g)
      then
        match dead g with
        | None => Raise Py.UnboundLocalError
        | Some true => Ok g
        | Some false =>
            let key := (early_state g, early_action g) in
            reward ← Py.add (get (dict g) key) (Py.Int 100);
            Ok (set_old_pipe (Some (PipePair.ident p))
                  (set_dict (<[key := reward]> (dict g)) g))
        end
      else Ok g
  end.

(** [e.type == QUIT or (e.type == KEYUP and e.key == K_ESCAPE)]. *)
Definition quits (e : Event) : bool :=
  match e with
  | QUIT => true
  | KEYUP key => key =? K_ESCAPE
  | OtherEvent => false
  end.

(** Lines 487-493: the body run for a quitting event. *)
Definition save_and_stop (g : Game) : Game :=
  let g := set_done true g in
  let g := set_files (<["foo.txt" := str_dict (dict g)]> (files g)) g in
  set_files (<["max_score.txt" := str_int (max_score g)]> (files g)) g.

(** Lines 484-494: [for e in pygame.event.get()], left by [break] at the
    first quitting event. *)
Fixpoint handle_events (es : list Event) (g : Game) : Game :=
  match es with
  | [] => g
  | e :: rest => if quits e then save_and_stop g else handle_events rest g
  end.

(** Lines 505-538. *)
Definition death (i : Input) (g : Game) : result Game :=
  let pipe_collision := any_collision (ticks_frame i) g in
  if pipe_collision || out_of_bounds (bird g) then
    let g := set_done true g in
    let g := set_dict (<[(state g, action g) := Py.Int (-1000)]> (dict g)) g in
    let reward := -1000 in
    let max_reward := get_max_reward (state g) (dict g) (action g) in
    let key := (previous_state g, previous_action g) in
    q ← learn 0.75 reward max_reward (get (dict g) key);
    let g := set_dict (<[key := q]> (dict g)) g in
    Ok (if max_score g <? score g then set_max_score (score g) g else g)
  else Ok g.

(** Lines 547-548: [while pipes and not pipes[0].visible: pipes.popleft()]. *)
Fixpoint drop_invisible (queue : list PipePair.t) : list PipePair.t :=
  match queue with
  | p :: rest => if PipePair.visible p then queue else drop_invisible rest
  | [] => []
  end.

(** Lines 558-561, for one pipe: the score and the pipe afterwards. *)
Definition score_pipe (b : Bird.t) (score : Z) (p : PipePair.t)
  : Z * PipePair.t :=
  if Py.lt (Py.Float (PipePair.x p + Py.nearest_double PipePair.WIDTH))
           (Py.Int (Bird.x b))
     && negb (PipePair.score_counted p)
  then (score + 1, PipePair.count_score p)
  else (score, p).

Fixpoint score_pipes (b : Bird.t) (score : Z) (queue : list PipePair.t)
  : Z * list PipePair.t :=
  match queue with
  | [] => (score, [])
  | p :: rest =>
      let '(score, p) := score_pipe b score p in
      let '(score, rest) := score_pipes b score rest in
      (score, p :: rest)
  end.

(** Lines 547-568: the world moves on by one frame. *)
Definition advance (g : Game) : Game :=
  let queue := PipePair.update <$> drop_invisible (pipes g) in
  let b := Bird.update (bird g) in
  let '(sc, queue) := score_pipes b (score g) queue in
  set_frame_clock (frame_clock g + 1)
    (set_score sc (set_pipes queue (set_bird b g))).

(** One pass of [while not done]. *)
Definition frame (i : Input) (g : Game) : result Game :=
  let g := decide g in
  let g := set_fps_to_next_action (fps_to_next_action g + 1) g in
  let g := spawn g in
  g ← interval i g;
  g ← bonus g;
  let g := handle_events (events i) g in
  if paused g then Ok g else
  g ← death i g;
  Ok (advance g).

(** [while(1)]: when the inner loop is left ([done]), the next pass starts a
    life.  Nothing leaves the outer loop, so [pygame.quit()] after it is
    never reached; [run] executes as many passes of the inner loop as there
    are inputs. *)
Fixpoint run (inputs : list Input) (g : Game) : result Game :=
  match inputs with
  | [] => Ok g
  | i :: rest =>
      g ← frame i (if done g then new_life g else g);
      run rest g
  end.

Definition main (live0 : generator) (inputs : list Input) : result Game :=
  run inputs (first_life live0).

(** The states [main] can be in between two passes of the inner loop. *)
Inductive reachable : Game -> Prop :=
| reach_first live0 : reachable (first_life live0)
| reach_frame g i g' :
    reachable g -> done g = false -> frame i g = Ok g' -> reachable g'
| reach_life g :
    reachable g -> done g = true -> reachable (new_life g).

End Main.

(* ===================================================================== *)
(** * Notions the properties are stated with                              *)
(* ===================================================================== *)

(** A double that is neither a NaN nor an infinity. *)
Definition finite (f : float) : bool :=
  match Prim2SF f with
  | S754_zero _ | S754_finite _ _ _ => true
  | S754_infinity _ | S754_nan => false
  end.

(** [truncation f n]: [n] is [f] with its fractional part dropped, that is
    the integer of the sign of [f] with [|n| <= |f| < |n| + 1]. *)
Definition truncation (f : float) (n : Z) : Prop :=
  match Prim2SF f with
  | S754_zero _ => n = 0
  | S754_finite s m e =>
      (if s then n <= 0 else 0 <= n) /\
      (if 0 <=? e then Z.abs n = Z.pos m * 2 ^ e
       else Z.abs n * 2 ^ (- e) <= Z.pos m < (Z.abs n + 1) * 2 ^ (- e))
  | S754_infinity _ | S754_nan => False
  end.

(** [nearest_integer f n]: [n] is an integer nearest to [f], that is
    [|f - n| <= 1/2] (either neighbour on a tie). *)
Definition nearest_integer (f : float) (n : Z) : Prop :=
  match Prim2SF f with
  | S754_zero _ => n = 0
  | S754_finite s m e =>
      let v := cond_Zopp s (Z.pos m) in
      if 0 <=? e then n = v * 2 ^ e
      else 2 * Z.abs (v - n * 2 ^ (- e)) <= 2 ^ (- e)
  | S754_infinity _ | S754_nan => False
  end.

(** The values [msec_to_climb] takes: the seed of a life and what one
    [update] leaves of it, and a full climb with what up to twenty
    [update]s leave of it. *)
Definition countdown (n : nat) (start : float) : list float :=
  (fun k => Nat.iter k (fun m => (m - frames_to_msec 1)%float) start)
    <$> seq 0 (S n).

Definition climb_timers : list float :=
  countdown 1 (Py.nearest_double 2) ++ countdown 20 Bird.CLIMB_DURATION.

(** Where a pipe is after [age] calls of [PipePair.update]. *)
Definition pipe_x (age : nat) : float :=
  Nat.iter age (fun x => (x - ANIMATION_SPEED * frames_to_msec 1)%float)
           (Py.nearest_double (WIN_WIDTH - 1)).

(** The age at which a pipe is dropped. *)
Definition oldest : nat := 216.

(** A queue in which every pipe was allocated before, and lies to the left
    of, the pipes behind it. *)
Definition left_to_right (queue : list PipePair.t) : Prop :=
  StronglySorted
    (fun p p' =>
       (PipePair.ident p < PipePair.ident p')%nat /\
       Py.lt (Py.Float (PipePair.x p)) (Py.Float (PipePair.x p')) = true)
    queue.

(** A queue sorted by decreasing x from front to back. *)
Definition decreasing_x (queue : list PipePair.t) : Prop :=
  StronglySorted
    (fun p p' => Py.gt (Py.Float (PipePair.x p)) (Py.Float (PipePair.x p')) = true)
    queue.

(** The front pipe still lies ahead of the bird. *)
Definition front_upcoming (b : Bird.t) (queue : list PipePair.t) : Prop :=
  match queue with
  | p :: _ =>
      Py.le (Py.Int (Bird.x b))
            (Py.Float (PipePair.x p + Py.nearest_double PipePair.WIDTH)) = true
  | [] => True
  end.

(** [tracked lo hi serial queue]: the pipes of the queue are where pipes of
    some ages are, the ages lie in [[lo, hi]] and go down strictly from
    front to back, and the serial numbers go up strictly from front to back
    and stay below [serial]. *)
Definition tracked (lo hi serial : nat) (queue : list PipePair.t) : Prop :=
  exists ages : list nat,
    PipePair.x <$> queue = pipe_x <$> ages /\
    StronglySorted gt ages /\
    Forall (fun a => lo <= a <= hi)%nat ages /\
    StronglySorted lt (PipePair.ident <$> queue) /\
    Forall (fun p => PipePair.ident p < serial)%nat queue.

(** What of a pipe makes the obstacle layout: its position and its two
    piece counts; and [PipePair.visible] and [PipePair.update] read on it. *)
Definition Shape : Type := float * Z * Z.

Definition shape (p : PipePair.t) : Shape :=
  (PipePair.x p, PipePair.top_pieces p, PipePair.bottom_pieces p).

Definition shape_visible (s : Shape) : bool :=
  Py.lt (Py.Int (- PipePair.WIDTH)) (Py.Float s.1.1) &&
  Py.lt (Py.Float s.1.1) (Py.Int WIN_WIDTH).

Fixpoint drop_shapes (l : list Shape) : list Shape :=
  match l with
  | s :: rest => if shape_visible s then l else drop_shapes rest
  | [] => []
  end.

Definition move_shape (s : Shape) : Shape :=
  ((s.1.1 - ANIMATION_SPEED * frames_to_msec 1)%float, s.1.2, s.2).

Section Layout.
Context `{Random}.

(** The obstacle stream after [n] draws from [seed 0], and its [n]-th draw
    (counted from 0). *)
Definition obstacle_stream (n : nat) : generator :=
  Nat.iter n (fun s => (randint 1 PipePair.total_pipe_body_pieces s).2) (seed 0).

Definition obstacle_draw (n : nat) : Z :=
  (randint 1 PipePair.total_pipe_body_pieces (obstacle_stream n)).1.

(** The obstacle layout as a function of the frame count alone: the
    obstacle stream and the shapes in the queue after [n] passes of the
    loop in a life.  Pass [n] draws a pipe from the stream when 180 divides
    [n], then drops and moves. *)
Definition layout_step (n : nat) (view : generator * list Shape)
  : generator * list Shape :=
  let '(stream, shapes) :=
    if Z.of_nat n mod frames_per_pipe =? 0 then
      let '(drawn, stream') :=
        randint 1 PipePair.total_pipe_body_pieces view.1 in
      (stream',
       view.2 ++ [(Py.nearest_double (WIN_WIDTH - 1),
                   PipePair.total_pipe_body_pieces - drawn + 1, drawn + 1)])
    else view in
  (stream, move_shape <$> drop_shapes shapes).

Fixpoint layout_at (n : nat) : generator * list Shape :=
  match n with
  | O => (seed 0, [])
  | S k => layout_step k (layout_at k)
  end.

(** What a run shows of the obstacles. *)
Definition layout (g : Game) : generator * list Shape :=
  ((random_state g).1, shape <$> pipes g).

End Layout.

(* ===================================================================== *)
(** * A host to run the model on                                          *)
(* ===================================================================== *)

(** Stand-ins for the three libraries, to evaluate the model on concrete
    runs: a generator that replays a script of draws, a polynomial for the
    cosine on [[0, pi]], and bounding boxes for the masks. *)
Module Demo.

(** The state of the generator is the script still to be replayed; an
    exhausted script keeps drawing the lower bound. *)
Definition replay (a b : Z) (script : list Z) : Z * list Z :=
  match script with
  | [] => (a, [])
  | v :: rest => (a + v mod (b - a + 1), rest)
  end.

#[export] Instance random : Random :=
{| generator := list Z;
   seed := fun a => [a; a + 3; a + 7];
   randint := replay |}.

Definition cosine (x : float) : float :=
  let x2 := (x * x)%float in
  (1 - x2 / 2 * (1 - x2 / 12 * (1 - x2 / 30 * (1 - x2 / 56 *
     (1 - x2 / 90 * (1 - x2 / 132 * (1 - x2 / 182 * (1 - x2 / 240))))))))%float.

#[export] Instance libm : Libm := {| cos := cosine |}.

(** The bird's 32x32 box at x = 50 against the two columns of the pipe. *)
Definition boxes_overlap (ticks : Z) (p : PipePair.t) (b : Bird.t) : bool :=
  (Py.lt (Py.Float (PipePair.x p)) (Py.Int (Bird.x b + Bird.WIDTH)) &&
   Py.gt (Py.Float (PipePair.x p + Py.nearest_double PipePair.WIDTH))
         (Py.Int (Bird.x b))) &&
  (Py.lt (Py.Float (Bird.y b)) (Py.Int (PipePair.top_pieces p * 32)) ||
   Py.gt (Py.Float (Bird.y b + Py.nearest_double Bird.HEIGHT))
         (Py.Int (WIN_HEIGHT - PipePair.bottom_pieces p * 32))).

#[export] Instance pygame : Pygame := {| collide_mask := boxes_overlap |}.

(** A pass of the loop with no event. *)
Definition quiet : Input :=
  {| events := []; ticks_interval := 0; ticks_frame := 0 |}.

(** A pass of the loop in which the window is closed. *)
Definition closing : Input :=
  {| events := [OtherEvent; QUIT]; ticks_interval := 0; ticks_frame := 0 |}.

(** A script for the exploration stream: at every decision the first draw
    is 1 (explore) and the second is the action; the bird ascends at the
    decisions 5, 9, 10 and 13 of the life. *)
Definition pilot : list Z :=
  concat ((fun a : Z => [0; a]) <$> [0; 0; 0; 0; 0; 1; 0; 0; 0; 1; 1; 0; 0; 1; 0; 0]).


(** The game a computation returns (the start of a life if it raises). *)
Definition the (r : result Game) : Game :=
  match r with
  | Ok g => g
  | Raise _ => first_life []
  end.

(** The start of the first life under [pilot], the state after a pass in
    which the window is closed, and the state after the pass that follows. *)
Definition takeoff : Game := first_life pilot.

Definition closed : Game := the (frame closing takeoff).

Definition reborn : Game := the (frame quiet (new_life closed)).

(** The state after [n] passes of the loop under [pilot]: the bird passes
    the first pipe, and the pipe leaves the screen in pass 216. *)
Definition flight (n : nat) : result Game := main pilot (repeat quiet n).

Definition at_frame (n : nat) : Game := the (flight n).

(** The state after [n] passes with an exhausted exploration script: the
    bird never ascends and sinks out of the window in pass 85; pass 86
    starts the second life. *)
Definition sinking (n : nat) : result Game := main [] (repeat quiet n).

Definition sunk (n : nat) : Game := the (sinking n).

(** The states a quiet pass from [g] hands to its interval check, to its
    bonus and to its death check. *)
Definition before_interval (g : Game) : Game :=
  let g := decide g in
  spawn (set_fps_to_next_action (fps_to_next_action g + 1) g).

Definition before_bonus (g : Game) : Game :=
  the (interval quiet (before_interval g)).

Definition before_death (g : Game) : Game :=
  handle_events (events quiet) (the (bonus (before_bonus g))).

End Demo.

(** The ages of the queued pipes after [n] passes of a life, in closed
    form: the youngest pipe was spawned in the last pass whose number is a
    multiple of 180, and the pipe before it is still queued during the 36
    passes that follow a spawn. *)
Definition youngest (n : nat) : nat := ((n - 1) mod 180 + 1)%nat.

Definition ages_at (n : nat) : list nat :=
  if (n =? 0)%nat then []
  else if (180 <? n)%nat && (youngest n <=? 36)%nat
       then [youngest n + 180; youngest n]%nat
       else [youngest n].

(** [drop_invisible] read on ages. *)
Fixpoint drop_old (ages : list nat) : list nat :=
  match ages with
  | a :: rest => if (a <? oldest)%nat then ages else drop_old rest
  | [] => []
  end.

Section Passes.
Context `{Random} `{Libm} `{Pygame}.

(** The state a pass hands to its interval check: after the decision, the
    count of the frame and the spawn (lines 413-430). *)
Definition at_check (g : Game) : Game :=
  let g := decide g in
  spawn (set_fps_to_next_action (fps_to_next_action g + 1) g).

End Passes.

(** The exceptions of arithmetic: a conversion out of range or of a NaN. *)
Definition numeric (e : Py.exn) : Prop :=
  e = Py.OverflowError \/ e = Py.ValueError.

(** What the score loop reads of a pipe, [x] and [score_counted]; and what
    it reads of a pipe of age [a]: the pipe is counted in the pass in which
    its right edge, [x + 80 = 647 - 3a], gets left of the bird's [x = 50],
    which is at the age of 200. *)
Definition seen (p : PipePair.t) : float * bool :=
  (PipePair.x p, PipePair.score_counted p).

Definition counted_age : nat := 200.

Definition aged (a : nat) : float * bool :=
  (pipe_x a, (counted_age <=? a)%nat).

(** The score after [n] passes of a life. *)
Definition score_at (n : nat) : Z := Z.of_nat ((n - 20) / 180).

(** The pieces [PipePair.__init__] blits onto the image of the pipe (lines
    190-203): a piece and the [y] it is drawn at ([x] is 0 for all of
    them).  [top_pieces] and [bottom_pieces] are the counts [__init__] has
    at that point, before it adds the end pieces to them. *)
Inductive Piece : Type := pipe_body | pipe_end.

Definition image (top_pieces bottom_pieces : Z) : list (Piece * Z) :=
  let bottom_body :=                     (* for i in range(1, bottom_pieces + 1) *)
    (fun i => (pipe_body, WIN_HEIGHT - i * PipePair.PIECE_HEIGHT))
      <$> seqZ 1 bottom_pieces in
  let bottom_pipe_end_y := WIN_HEIGHT - bottom_pieces * PipePair.PIECE_HEIGHT in
  let bottom_end := (pipe_end, bottom_pipe_end_y - PipePair.PIECE_HEIGHT) in
  let top_body :=                        (* for i in range(top_pieces) *)
    (fun i => (pipe_body, i * PipePair.PIECE_HEIGHT)) <$> seqZ 0 top_pieces in
  let top_pipe_end_y := top_pieces * PipePair.PIECE_HEIGHT in
  bottom_body ++ [bottom_end] ++ top_body ++ [(pipe_end, top_pipe_end_y)].

(** The properties [top_height_px] and [bottom_height_px]. *)
Definition top_height_px (p : PipePair.t) : Z :=
  PipePair.top_pieces p * PipePair.PIECE_HEIGHT.

Definition bottom_height_px (p : PipePair.t) : Z :=
  PipePair.bottom_pieces p * PipePair.PIECE_HEIGHT.

(** Whether the last draw before the state after [n] passes of a life was
    a pipe's: the agent draws in the passes 0, 15, 30, ..., a pipe in the
    passes 0, 180, 360, ..., after the agent; at the start of a life the
    generator has just been seeded. *)
Definition pipe_drew_last (n : nat) : bool :=
  (n =? 0)%nat || ((n - 1) mod 180 <? 15)%nat.

(* ===================================================================== *)
(** * Python numbers: order and conversions                               *)
(* ===================================================================== *)

Lemma bind_Ok {A B} (r : result A) (k : A -> result B) (b : B) :
  r ≫= k = Ok b -> exists a, r = Ok a /\ k a = Ok b.
Proof.
  destruct r as [a|e]; simpl; [eauto | discriminate].
Qed.

Lemma bind_ret {A B} (a : A) (k : A -> result B) : Ok a ≫= k = k a.
Proof. reflexivity. Qed.

(** Splits a hypothesis [x ← r; k = Ok b] into [r = Ok x] and the rest. *)
Ltac bind_inv H :=
  let a := fresh "a" in
  let Ha := fresh "Ha" in
  apply bind_Ok in H; destruct H as (a & Ha & H).

Lemma SFltb_irrefl (a : spec_float) : SFltb a a = false.
Proof.
  unfold SFltb.
  destruct a as [s|s| |s m e]; simpl; try reflexivity; destruct s; simpl;
    try reflexivity;
    rewrite Z.compare_refl, Pos.compare_cont_refl; reflexivity.
Qed.

Lemma compare_cont_flip (p q : positive) :
  Pos.compare_cont Eq p q = CompOpp (Pos.compare_cont Eq q p).
Proof. rewrite Pos.compare_cont_antisym. reflexivity. Qed.

Lemma SFltb_asym (a b : spec_float) : SFltb a b = true -> SFltb b a = false.
Proof.
  unfold SFltb.
  destruct a as [sa|sa| |sa ma ea], b as [sb|sb| |sb mb eb]; simpl;
    try destruct sa; try destruct sb; simpl; try discriminate; try reflexivity.
  - rewrite (Z.compare_antisym ea eb), (compare_cont_flip mb ma).
    destruct (ea ?= eb); simpl; try discriminate; try reflexivity.
    destruct (Pos.compare_cont Eq ma mb); simpl; try discriminate; reflexivity.
  - rewrite (Z.compare_antisym ea eb), (compare_cont_flip mb ma).
    destruct (ea ?= eb); simpl; try discriminate; try reflexivity.
    destruct (Pos.compare_cont Eq ma mb); simpl; try discriminate; reflexivity.
Qed.

Lemma lt_irrefl (a : Py.num) : Py.lt a a = false.
Proof.
  destruct a as [z|f]; simpl.
  - apply Z.ltb_irrefl.
  - rewrite ltb_spec. apply SFltb_irrefl.
Qed.

Lemma lt_asym (a b : Py.num) : Py.lt a b = true -> Py.lt b a = false.
Proof.
  destruct a as [x|x], b as [y|y]; simpl.
  - intros Hlt. apply Z.ltb_lt in Hlt. apply Z.ltb_ge. lia.
  - destruct (Py.compare_int_float x y) as [[ | | ]|]; congruence.
  - destruct (Py.compare_int_float y x) as [[ | | ]|]; congruence.
  - rewrite !ltb_spec. apply SFltb_asym.
Qed.

(** [get_max_reward] returns one of the two values stored for [state], and
    neither of them is greater than it. *)
Lemma get_max_reward_greatest (state : State) (dict : Table) (action : bool) :
  let best := get_max_reward state dict action in
  (best = get dict (state, true) \/ best = get dict (state, false)) /\
  Py.gt (get dict (state, true)) best = false /\
  Py.gt (get dict (state, false)) best = false.
Proof.
  unfold get_max_reward, Py.gt.
  destruct action; simpl;
    destruct (Py.lt (get dict (state, false)) (get dict (state, true))) eqn:Hft;
    destruct (Py.lt (get dict (state, true)) (get dict (state, false))) eqn:Htf;
    rewrite ?lt_irrefl; auto using lt_asym;
    apply lt_asym in Hft; congruence.
Qed.

(** The learning rule in floats: whenever [learn] returns, it returns the
    double [q + 0.7 * ((reward + gamma * max_reward) - q)]. *)
Lemma learn_formula (gamma : float) (reward : Z) (best q v : Py.num) :
  learn gamma reward best q = Ok v ->
  exists fr fb fq,
    Py.float_of_int reward = Ok fr /\ Py.to_float best = Ok fb /\
    Py.to_float q = Ok fq /\
    v = Py.Float (fq + 0.7 * ((fr + gamma * fb) - fq))%float.
Proof.
  unfold learn, Py.mul, Py.add, Py.sub, Py.arith. simpl.
  destruct (Py.to_float best) as [fb|] eqn:Hb; simpl; [|discriminate].
  destruct (Py.float_of_int reward) as [fr|] eqn:Hr; simpl; [|discriminate].
  destruct (Py.to_float q) as [fq|] eqn:Hq; simpl; [|discriminate].
  intros Hl. exists fr, fb, fq. repeat split.
  destruct q as [z|f]; simpl in *; congruence.
Qed.

(** The converse: the rule returns as soon as the three operands convert. *)
Lemma learn_returns (gamma : float) (reward : Z) (best q : Py.num)
    (fr fb fq : float) :
  Py.float_of_int reward = Ok fr -> Py.to_float best = Ok fb ->
  Py.to_float q = Ok fq ->
  learn gamma reward best q
  = Ok (Py.Float (fq + 0.7 * ((fr + gamma * fb) - fq))%float).
Proof.
  unfold learn, Py.mul, Py.add, Py.sub, Py.arith. intros Hr Hb Hq.
  simpl. rewrite Hb. simpl. rewrite Hr. simpl. rewrite Hq. simpl.
  destruct q as [z|f]; simpl in *; rewrite ?Hq; simpl; congruence.
Qed.

(* ===================================================================== *)
(** * The agent: action selection and the two random streams              *)
(* ===================================================================== *)

Section Agent.
Context `{Random}.

(** C3. Action selection.  The agent compares the two entries the table
    holds for the state: [click], the value stored under [(state, True)],
    and [nothing], the value stored under [(state, False)], each read as
    the integer 0 when the key has no entry.  With [score < max_score] the
    action is the greedy one: ascend exactly when [click] is strictly
    greater than [nothing] (so a tie or an empty table gives "do
    nothing").  With [score >= max_score] the first draw from [1, 10]
    decides: on the two values below 3 (2 of the 10) the action is the
    second draw from [0, 1] being 1 (1 of the 2), on the eight others it
    is the greedy one. *)
Theorem determine_action_selects (state : State) (dict : Table)
    (random_state : generator * generator) (live : generator)
    (score max_score : Z) :
  let stored := fun action : bool =>
    match dict !! (state, action) with
    | Some value => value
    | None => Py.Int 0
    end in
  let click := stored true in
  let nothing := stored false in
  let greedy := Py.gt click nothing in
  let first := randint 1 10 random_state.2 in
  let second := randint 0 1 first.2 in
  let chosen :=
    (determine_action state dict random_state live score max_score).1.1 in
  (score < max_score -> chosen = greedy) /\
  (max_score <= score ->
     chosen = if first.1 <? 3 then second.1 =? 1 else greedy) /\
  (click = nothing -> greedy = false) /\
  (forall value, dict !! (state, true) = Some value -> click = value) /\
  (forall value, dict !! (state, false) = Some value -> nothing = value) /\
  (dict !! (state, true) = None -> click = Py.Int 0) /\
  (dict !! (state, false) = None -> nothing = Py.Int 0) /\
  (forall value other,
     dict !! (state, true) = Some value ->
     dict !! (state, false) = Some other ->
     score < max_score -> chosen = Py.gt value other) /\
  filter (fun v => v < 3) (seqZ 1 10) = [1; 2] /\
  filter (fun v => v = 1) (seqZ 0 2) = [1].
Proof.
  cbv zeta. unfold determine_action, get, default.
  destruct (randint 1 10 random_state.2) as [value s1] eqn:Hfirst. simpl.
  destruct (randint 0 1 s1) as [coin s2] eqn:Hsecond. simpl.
  assert (Hgreedy : score < max_score ->
            (if (value <? 3) && (max_score <=? score)
             then if coin =? 1
                  then (true, (random_state.1, s2), s2)
                  else (false, (random_state.1, s2), s2)
             else if Py.gt
                       match dict !! (state, true) with
                       | Some x => x
                       | None => Py.Int 0
                       end
                       match dict !! (state, false) with
                       | Some x => x
                       | None => Py.Int 0
                       end
                  then (true, (random_state.1, s1), s1)
                  else (false, (random_state.1, s1), s1)).1.1
            = Py.gt
                match dict !! (state, true) with
                | Some x => x
                | None => Py.Int 0
                end
                match dict !! (state, false) with
                | Some x => x
                | None => Py.Int 0
                end).
  { intros Hlow. apply Z.leb_gt in Hlow. rewrite Hlow, andb_false_r.
    destruct (Py.gt _ _); reflexivity. }
  split; [exact Hgreedy|].
  split.
  { intros Hhigh. apply Z.leb_le in Hhigh. rewrite Hhigh, andb_true_r.
    destruct (value <? 3).
    + destruct (coin =? 1); reflexivity.
    + destruct (Py.gt _ _); reflexivity. }
  split; [intros ->; apply lt_irrefl|].
  split; [intros v ->; reflexivity|].
  split; [intros v ->; reflexivity|].
  split; [intros ->; reflexivity|].
  split; [intros ->; reflexivity|].
  split; [|split; reflexivity].
  intros v w Hv Hw Hlow. rewrite (Hgreedy Hlow), Hv, Hw. reflexivity.
Qed.

(** C10. The two streams are kept apart.  [determine_action] leaves
    element 0 of [random_state] as it is and does not read it (nor the
    state the generator happens to be in); it draws from element 1 once,
    or twice when it explores, and only once when [score < max_score].
    [PipePair.__init__] leaves element 1 as it is and does not read it; it
    draws from element 0 exactly once, and that draw is the pipe's
    [bottom_pieces] before the end piece is counted. *)
Theorem streams_are_separate :
  (forall (state : State) (dict : Table) (random_state : generator * generator)
          (live : generator) (score max_score : Z),
     let r := determine_action state dict random_state live score max_score in
     let once := (randint 1 10 random_state.2).2 in
     let twice := (randint 0 1 once).2 in
     r.1.2.1 = random_state.1 /\
     (r.1.2.2 = once \/ r.1.2.2 = twice) /\
     (score < max_score -> r.1.2.2 = once) /\
     r.2 = r.1.2.2 /\
     forall (other live' : generator),
       determine_action state dict (other, random_state.2) live' score max_score
       = (r.1.1, (other, r.1.2.2), r.2)) /\
  (forall (serial : nat) (random_state : generator * generator)
          (live : generator),
     let r := PipePair.init serial random_state live in
     let draw := randint 1 PipePair.total_pipe_body_pieces random_state.1 in
     r.1.2.2 = random_state.2 /\
     r.1.2.1 = draw.2 /\
     r.2 = draw.2 /\
     PipePair.bottom_pieces r.1.1 = draw.1 + 1 /\
     PipePair.top_pieces r.1.1 = PipePair.total_pipe_body_pieces - draw.1 + 1 /\
     forall (other live' : generator),
       PipePair.init serial (random_state.1, other) live'
       = (r.1.1, (r.1.2.1, other), r.2)).
Proof.
  split.
  - intros state dict [obstacle exploration] live score max_score.
    cbv zeta. unfold determine_action. simpl.
    destruct (randint 1 10 exploration) as [value s1] eqn:Hfirst.
    destruct ((value <? 3) && (max_score <=? score)) eqn:Hgate.
    + destruct (randint 0 1 s1) as [coin s2] eqn:Hsecond.
      destruct (coin =? 1); simpl; rewrite ?Hsecond; simpl;
        (repeat split; auto);
        intros Hlow; apply Z.leb_gt in Hlow;
        rewrite Hlow, andb_false_r in Hgate; discriminate.
    + destruct (Py.gt _ _); simpl; repeat split; auto.
  - intros serial [obstacle exploration] live.
    cbv zeta. unfold PipePair.init. simpl.
    destruct (randint 1 PipePair.total_pipe_body_pieces obstacle)
      as [drawn s1] eqn:Hdraw.
    simpl. repeat split.
Qed.

End Agent.

(* ===================================================================== *)
(** * The learning rule at its three places in the loop                   *)
(* ===================================================================== *)

Section Learning.
Context `{Random} `{Libm} `{Pygame}.

(** C1. The update at the end of a decision interval.  When the frame
    counter has reached 15 (and the queue has a front pipe, the new state
    and the rule evaluate), the pass stores
    [q + 0.7 * (reward + 0.9 * max_reward - q)] under
    [(previous_state, previous_action)], where [q] is the value read there
    (0 when absent), [reward] is -1000 when death is detected at this
    check and 1 otherwise, and [max_reward] is the greater of the values
    stored for [(state, True)] and [(state, False)]; no other entry
    changes.  On an empty table with no death the stored value is the
    double 0.7. *)
Theorem interval_learns (i : Input) (g : Game) (p : PipePair.t)
    (next : State) (q : Py.num) :
  let is_dead := any_collision (ticks_interval i) g || out_of_bounds (bird g) in
  let reward := if is_dead then -1000 else 1 in
  let key := (previous_state g, previous_action g) in
  let max_reward := get_max_reward (state g) (dict g) (action g) in
  fps_to_next_action g = 15 ->
  front g = Ok p ->
  new_state (bird g) p is_dead = Ok next ->
  learn 0.9 reward max_reward (get (dict g) key) = Ok q ->
  exists g',
    interval i g = Ok g' /\
    dict g' = <[key := q]> (dict g) /\
    get (dict g') key = q /\
    (forall k, k <> key -> dict g' !! k = dict g !! k) /\
    (exists fr fb fq,
        Py.float_of_int reward = Ok fr /\ Py.to_float max_reward = Ok fb /\
        Py.to_float (get (dict g) key) = Ok fq /\
        q = Py.Float (fq + 0.7 * ((fr + 0.9 * fb) - fq))%float) /\
    (max_reward = get (dict g) (state g, true) \/
     max_reward = get (dict g) (state g, false)) /\
    Py.gt (get (dict g) (state g, true)) max_reward = false /\
    Py.gt (get (dict g) (state g, false)) max_reward = false /\
    (dict g = ∅ -> is_dead = false -> q = Py.Float 0.7) /\
    fps_to_next_action g' = 0 /\ state g' = next.
Proof.
  intros is_dead reward key max_reward Hfps Hfront Hnext Hlearn.
  pose proof (get_max_reward_greatest (state g) (dict g) (action g))
    as (Hone & Htrue & Hfalse).
  pose proof (learn_formula _ _ _ _ _ Hlearn) as Hformula.
  assert (Hrun : interval i g
      = Ok (set_fps_to_next_action 0 (set_state next
             (set_previous_action (action g) (set_previous_state (state g)
               (set_early_action (previous_action g)
                 (set_early_state (previous_state g)
                   (set_dict (<[key := q]> (dict g))
                     (if is_dead
                      then set_done true (set_dead (Some is_dead) g)
                      else set_dead (Some is_dead) g))))))))).
  { unfold interval. rewrite Hfps. simpl.
    fold is_dead. unfold front in *.
    destruct is_dead eqn:Hd; simpl in *;
      destruct (pipes g) as [|p0 rest]; try discriminate;
      injection Hfront as ->; rewrite bind_ret, Hnext, bind_ret;
      fold key; fold max_reward; unfold reward in Hlearn;
      rewrite Hlearn; reflexivity. }
  eexists. split; [exact Hrun|].
  assert (Hdict : dict (set_fps_to_next_action 0 (set_state next
             (set_previous_action (action g) (set_previous_state (state g)
               (set_early_action (previous_action g)
                 (set_early_state (previous_state g)
                   (set_dict (<[key := q]> (dict g))
                     (if is_dead
                      then set_done true (set_dead (Some is_dead) g)
                      else set_dead (Some is_dead) g))))))))
          = <[key := q]> (dict g)) by (destruct is_dead; reflexivity).
  rewrite Hdict.
  split; [reflexivity|].
  split; [unfold get; rewrite lookup_insert_eq; reflexivity|].
  split; [intros k Hk; apply lookup_insert_ne; congruence|].
  split; [exact Hformula|].
  split; [exact Hone|].
  split; [exact Htrue|].
  split; [exact Hfalse|].
  split; [|split; reflexivity].
  intros Hempty Halive.
  unfold max_reward, reward, get_max_reward, get in Hlearn.
  rewrite Hempty, Halive, !lookup_empty in Hlearn. simpl in Hlearn.
  vm_compute in Hlearn. congruence.
Qed.

(** C2. The update on a death detected by the per-frame check.  The pass
    first stores the integer -1000 under [(state, action)], then stores
    [q + 0.7 * (-1000 + 0.75 * max_reward - q)] under
    [(previous_state, previous_action)], with [q] and [max_reward] read
    from the table that already holds the -1000. *)
Theorem death_learns (i : Input) (g : Game) (q : Py.num) :
  let struck := any_collision (ticks_frame i) g || out_of_bounds (bird g) in
  let terminal := (state g, action g) in
  let marked := <[terminal := Py.Int (-1000)]> (dict g) in
  let key := (previous_state g, previous_action g) in
  let max_reward := get_max_reward (state g) marked (action g) in
  struck = true ->
  learn 0.75 (-1000) max_reward (get marked key) = Ok q ->
  exists g',
    death i g = Ok g' /\
    get marked terminal = Py.Int (-1000) /\
    dict g' = <[key := q]> marked /\
    get (dict g') key = q /\
    (key <> terminal -> get (dict g') terminal = Py.Int (-1000)) /\
    (forall k, k <> key -> k <> terminal -> dict g' !! k = dict g !! k) /\
    (exists fb fq,
        Py.to_float max_reward = Ok fb /\ Py.to_float (get marked key) = Ok fq /\
        q = Py.Float (fq + 0.7 * ((-1000 + 0.75 * fb) - fq))%float) /\
    (max_reward = Py.Int (-1000) \/
     max_reward = get (dict g) (state g, negb (action g))) /\
    Py.gt (Py.Int (-1000)) max_reward = false /\
    Py.gt (get (dict g) (state g, negb (action g))) max_reward = false /\
    done g' = true.
Proof.
  intros struck terminal marked key max_reward Hstruck Hlearn.
  pose proof (learn_formula _ _ _ _ _ Hlearn) as (fr & fb & fq & Hr & Hb & Hq & Hv).
  assert (Hmark : get marked terminal = Py.Int (-1000))
    by (unfold get, marked; rewrite lookup_insert_eq; reflexivity).
  assert (Hother : get marked (state g, negb (action g))
                   = get (dict g) (state g, negb (action g))).
  { unfold get, marked, terminal. rewrite lookup_insert_ne; [reflexivity|].
    intros Heq. injection Heq as Heq. destruct (action g); discriminate. }
  assert (Hrun : death i g
      = Ok (let g1 := set_dict (<[key := q]> marked) (set_done true g) in
            if max_score g1 <? score g1 then set_max_score (score g1) g1
            else g1)).
  { unfold death. fold struck. rewrite Hstruck. simpl.
    fold terminal. fold marked. fold key. fold max_reward.
    rewrite Hlearn. reflexivity. }
  eexists. split; [exact Hrun|].
  assert (Hdict : dict (let g1 := set_dict (<[key := q]> marked) (set_done true g) in
            if max_score g1 <? score g1 then set_max_score (score g1) g1
            else g1) = <[key := q]> marked)
    by (simpl; destruct (max_score g <? score g); reflexivity).
  rewrite Hdict.
  split; [exact Hmark|].
  split; [reflexivity|].
  split; [unfold get; rewrite lookup_insert_eq; reflexivity|].
  split.
  { intros Hne. unfold get in *. rewrite lookup_insert_ne by congruence.
    exact Hmark. }
  split.
  { intros k Hk Hk'. unfold marked.
    rewrite !lookup_insert_ne by congruence. reflexivity. }
  split.
  { exists fb, fq. vm_compute in Hr. injection Hr as <-. auto. }
  pose proof (get_max_reward_greatest (state g) marked (action g))
    as (Hone & Htrue & Hfalse).
  fold max_reward in Hone, Htrue, Hfalse.
  unfold terminal in Hmark. rewrite <- Hother.
  split; [|split; [|split]].
  - destruct (action g); simpl in *; rewrite Hmark in *; tauto.
  - destruct (action g); simpl in *; rewrite Hmark in *; assumption.
  - destruct (action g); simpl in *; assumption.
  - simpl. destruct (max_score g <? score g); reflexivity.
Qed.

(** The value the bonus stores: Python's [old + 100]. *)
Lemma add_100 (old : Py.num) :
  Py.add old (Py.Int 100)
  = Ok match old with
       | Py.Int z => Py.Int (z + 100)
       | Py.Float f => Py.Float (f + 100)%float
       end.
Proof. destruct old as [z|f]; reflexivity. Qed.

(** C6. The delayed bonus.  When the front pipe is not the remembered one,
    the last interval check found the bird alive and the score exceeds the
    best score, the pass adds 100 to the value stored under
    [(early_state, early_action)] (an absent entry reads 0), changes no
    other entry, and remembers the new front pipe.  The early pair is the
    pair that was [(previous_state, previous_action)] before the last
    interval update, which in turn was [(state, action)] before the update
    preceding it: the pair of two decision intervals earlier. *)
Theorem bonus_adds_100 (g : Game) (p : PipePair.t) (remembered : nat) :
  let early := (early_state g, early_action g) in
  let raised :=
    match get (dict g) early with
    | Py.Int z => Py.Int (z + 100)
    | Py.Float f => Py.Float (f + 100)%float
    end in
  old_pipe g = Some remembered ->
  front g = Ok p ->
  remembered <> PipePair.ident p ->
  dead g = Some false ->
  max_score g < score g ->
  (exists g',
     bonus g = Ok g' /\
     dict g' = <[early := raised]> (dict g) /\
     get (dict g') early = raised /\
     (forall k, k <> early -> dict g' !! k = dict g !! k) /\
     old_pipe g' = Some (PipePair.ident p)) /\
  (forall (i : Input) (g0 g1 : Game),
     fps_to_next_action g0 = 15 -> interval i g0 = Ok g1 ->
     (early_state g1, early_action g1) = (previous_state g0, previous_action g0) /\
     (previous_state g1, previous_action g1) = (state g0, action g0)).
Proof.
  intros early raised Hold Hfront Hchanged Halive Hrecord. split.
  - exists (set_old_pipe (Some (PipePair.ident p))
              (set_dict (<[early := raised]> (dict g)) g)).
    split.
    + unfold bonus. rewrite Hold, Hfront. simpl.
      apply Nat.eqb_neq in Hchanged. rewrite Hchanged.
      apply Z.ltb_lt in Hrecord. rewrite Hrecord. simpl.
      rewrite Halive. fold early. rewrite add_100. reflexivity.
    + simpl. split; [reflexivity|].
      split; [unfold get; rewrite lookup_insert_eq; reflexivity|].
      split; [|reflexivity].
      intros k Hk. apply lookup_insert_ne. congruence.
  - intros i g0 g1 Hfps Hint. unfold interval in Hint.
    rewrite Hfps in Hint. simpl in Hint.
    bind_inv Hint. bind_inv Hint. bind_inv Hint.
    injection Hint as <-.
    destruct (any_collision (ticks_interval i) g0 || out_of_bounds (bird g0));
      split; reflexivity.
Qed.

End Learning.

(* ===================================================================== *)
(** * What one pass of the loop does to the world                         *)
(* ===================================================================== *)

Section Frames.
Context `{Random} `{Libm} `{Pygame}.

(** What the obstacle side of the loop reads and writes. *)
Definition world (g : Game)
  : list PipePair.t * Z * generator * nat * bool :=
  (pipes g, frame_clock g, (random_state g).1, serial g, paused g).

(** Takes a hypothesis [block g = Ok g'] apart along the binds, matches and
    conditionals of the block. *)
Ltac block_inv :=
  repeat match goal with
  | H : Raise _ = Ok _ |- _ => discriminate H
  | H : Ok _ = Ok _ |- _ => injection H as <-
  | H : (_ ≫= _) = Ok _ |- _ => bind_inv H
  | H : match ?x with _ => _ end = Ok _ |- _ => destruct x eqn:?
  end.

Ltac fields :=
  repeat first
    [ reflexivity
    | progress simpl
    | match goal with
      | |- context [if ?b then _ else _] => destruct b
      end ].

Lemma handle_events_spec (es : list Event) (g : Game) :
  handle_events es g = if existsb quits es then save_and_stop g else g.
Proof.
  induction es as [|e es IH]; simpl; [reflexivity|].
  destruct (quits e); simpl; [reflexivity | exact IH].
Qed.

Lemma determine_action_obstacle (st : State) (d : Table)
    (rs : generator * generator) (lv : generator) (sc ms : Z) :
  (determine_action st d rs lv sc ms).1.2.1 = rs.1.
Proof.
  unfold determine_action.
  destruct (randint 1 10 rs.2) as [value s1].
  destruct ((value <? 3) && (ms <=? sc)).
  - destruct (randint 0 1 s1) as [coin s2]. destruct (coin =? 1); reflexivity.
  - destruct (Py.gt _ _); reflexivity.
Qed.

Lemma decide_world (g : Game) : world (decide g) = world g.
Proof.
  unfold decide, world.
  destruct (fps_to_next_action g =? 0); [|reflexivity].
  pose proof (determine_action_obstacle (state g) (dict g) (random_state g)
                (live g) (score g) (max_score g)) as Hobs.
  destruct (determine_action _ _ _ _ _ _) as [[a rs] lv]. simpl in Hobs.
  destruct a; simpl; rewrite Hobs; reflexivity.
Qed.

Lemma decide_bird (g : Game) :
  bird (decide g) = bird g \/ bird (decide g) = Bird.flap (bird g).
Proof.
  unfold decide.
  destruct (fps_to_next_action g =? 0); [|left; reflexivity].
  destruct (determine_action _ _ _ _ _ _) as [[a rs] lv].
  destruct a; simpl; auto.
Qed.

Lemma spawn_bird (g : Game) : bird (spawn g) = bird g.
Proof.
  unfold spawn. destruct (negb _); [|reflexivity].
  destruct (PipePair.init _ _ _) as [[pp rs] lv]. reflexivity.
Qed.

(** [spawn] reads nothing but the world. *)
Lemma spawn_world (g h : Game) :
  world h = world g -> world (spawn h) = world (spawn g).
Proof.
  unfold world, spawn. intros [= Hp Hc Hr Hs Hpa].
  rewrite Hp, Hc, Hs, Hpa.
  destruct (negb _); [|simpl; congruence].
  unfold PipePair.init. rewrite Hr.
  destruct (randint 1 PipePair.total_pipe_body_pieces (random_state g).1)
    as [drawn s1].
  simpl. congruence.
Qed.

Lemma interval_world (i : Input) (g g' : Game) :
  interval i g = Ok g' -> world g' = world g /\ bird g' = bird g.
Proof.
  unfold interval. intros Hrun. block_inv; split; fields.
Qed.

Lemma bonus_world (g g' : Game) :
  bonus g = Ok g' -> world g' = world g /\ bird g' = bird g.
Proof.
  unfold bonus. intros Hrun. block_inv; split; fields.
Qed.

Lemma handle_events_world (es : list Event) (g : Game) :
  world (handle_events es g) = world g /\
  bird (handle_events es g) = bird g.
Proof.
  rewrite handle_events_spec. destruct (existsb quits es); split; reflexivity.
Qed.

Lemma death_world (i : Input) (g g' : Game) :
  death i g = Ok g' -> world g' = world g /\ bird g' = bird g.
Proof.
  unfold death. intros Hrun. block_inv; split; fields.
Qed.

(** One pass of the loop, seen from the world: the queue after [spawn] is
    pruned, moved and scored, the frame count goes up by one, and the bird
    is updated once, after the ascend the pass may have triggered. *)
Lemma frame_world (i : Input) (g g' : Game) :
  paused g = false ->
  frame i g = Ok g' ->
  (exists b sc,
     pipes g' = (score_pipes b sc
                   (PipePair.update <$> drop_invisible (pipes (spawn g)))).2) /\
  frame_clock g' = frame_clock g + 1 /\
  (random_state g').1 = (random_state (spawn g)).1 /\
  serial g' = serial (spawn g) /\
  paused g' = false /\
  (bird g' = Bird.update (bird g) \/
   bird g' = Bird.update (Bird.flap (bird g))).
Proof.
  intros Hpaused Hrun. unfold frame in Hrun.
  set (g1 := decide g) in Hrun.
  set (g2 := set_fps_to_next_action (fps_to_next_action g1 + 1) g1) in Hrun.
  assert (Hw2 : world g2 = world g) by (subst g2 g1; apply decide_world).
  assert (Hb2 : bird g2 = bird g \/ bird g2 = Bird.flap (bird g))
    by (subst g2 g1; apply decide_bird).
  pose proof (spawn_world g g2 Hw2) as Hw3.
  pose proof (spawn_bird g2) as Hb3.
  apply bind_Ok in Hrun as (g3 & Hint & Hrun).
  apply interval_world in Hint as [Hw4 Hb4].
  apply bind_Ok in Hrun as (g4 & Hbon & Hrun).
  apply bonus_world in Hbon as [Hw5 Hb5].
  destruct (handle_events_world (events i) g4) as [Hw6 Hb6].
  set (g6 := handle_events (events i) g4) in *.
  assert (Hw : world g6 = world (spawn g)) by congruence.
  assert (Hb : bird g6 = bird g2) by congruence.
  assert (Hp6 : paused g6 = false).
  { assert (Hps : paused (spawn g) = paused g)
      by (unfold spawn; destruct (negb _); [|reflexivity];
          destruct (PipePair.init _ _ _) as [[pp rs] lv]; reflexivity).
    unfold world in Hw. injection Hw as _ _ _ _ Hpa. congruence. }
  rewrite Hp6 in Hrun. apply bind_Ok in Hrun as (g7 & Hdie & Hrun).
  apply death_world in Hdie as [Hw7 Hb7].
  injection Hrun as <-.
  assert (Hw8 : world g7 = world (spawn g)) by congruence.
  assert (Hb8 : bird g7 = bird g2) by congruence.
  unfold world in Hw8. injection Hw8 as Hpi Hfc Hrs Hse Hpa.
  unfold advance.
  destruct (score_pipes (Bird.update (bird g7)) (score g7)
              (PipePair.update <$> drop_invisible (pipes g7)))
    as [sc queue] eqn:Hscore.
  simpl. rewrite <- Hpi.
  split; [exists (Bird.update (bird g7)), (score g7); rewrite Hscore; reflexivity|].
  assert (Hfs : frame_clock (spawn g) = frame_clock g)
    by (unfold spawn; destruct (negb _); [|reflexivity];
        destruct (PipePair.init _ _ _) as [[pp rs] lv]; reflexivity).
  assert (Hps : paused (spawn g) = paused g)
    by (unfold spawn; destruct (negb _); [|reflexivity];
        destruct (PipePair.init _ _ _) as [[pp rs] lv]; reflexivity).
  repeat split; try congruence.
  rewrite Hb8. destruct Hb2 as [-> | ->]; auto.
Qed.

(** Every state a run goes through is reachable. *)
Lemma run_reachable (inputs : list Input) (g g' : Game) :
  reachable g -> run inputs g = Ok g' -> reachable g'.
Proof.
  revert g. induction inputs as [|i rest IH]; simpl; intros g Hg Hrun.
  - injection Hrun as <-. exact Hg.
  - bind_inv Hrun. apply (IH a); [|exact Hrun].
    destruct (done g) eqn:Hdone.
    + apply (reach_frame (new_life g) i a); [|reflexivity|exact Ha].
      apply reach_life; assumption.
    + apply (reach_frame g i a); assumption.
Qed.

Lemma main_reachable (live0 : generator) (inputs : list Input) (g : Game) :
  main live0 inputs = Ok g -> reachable g.
Proof. apply run_reachable. constructor. Qed.

Lemma reachable_not_paused (g : Game) : reachable g -> paused g = false.
Proof.
  induction 1 as [live0 | g i g' Hg IH Hdone Hrun | g Hg IH Hdone];
    try reflexivity.
  apply (frame_world i g g' IH Hrun).
Qed.

End Frames.

(* ===================================================================== *)
(** * The bird's climb timer                                              *)
(* ===================================================================== *)

Section Timer.
Context `{Random} `{Libm} `{Pygame}.

(** What [Bird.update] does to the timer: a timer above zero loses the
    length of a frame, any other timer is left alone.  There is no clamp. *)
Lemma update_timer (b : Bird.t) :
  Bird.msec_to_climb (Bird.update b)
  = if Py.gt (Py.Float (Bird.msec_to_climb b)) (Py.Int 0)
    then (Bird.msec_to_climb b - frames_to_msec 1)%float
    else Bird.msec_to_climb b.
Proof.
  unfold Bird.update. destruct (Py.gt _ _); reflexivity.
Qed.

Lemma climb_timers_closed (m : float) :
  In m climb_timers ->
  In (if Py.gt (Py.Float m) (Py.Int 0) then (m - frames_to_msec 1)%float else m)
     climb_timers.
Proof.
  intros Hin. vm_compute in Hin.
  repeat (destruct Hin as [<- | Hin]; [vm_compute; tauto|]).
  contradiction.
Qed.

Lemma climb_timers_bounded (m : float) :
  In m climb_timers ->
  Py.lt (Py.Float (-15)) (Py.Float m) = true /\
  Py.le (Py.Float m) (Py.Float Bird.CLIMB_DURATION) = true.
Proof.
  intros Hin. vm_compute in Hin.
  repeat (destruct Hin as [<- | Hin]; [vm_compute; tauto|]).
  contradiction.
Qed.

Lemma reachable_timer (g : Game) :
  reachable g -> In (Bird.msec_to_climb (bird g)) climb_timers.
Proof.
  induction 1 as [live0 | g i g' Hg IH Hdone Hrun | g Hg IH Hdone].
  - vm_compute. tauto.
  - apply frame_world in Hrun as (_ & _ & _ & _ & _ & [-> | ->]);
      [| |apply reachable_not_paused; assumption];
      rewrite update_timer; apply climb_timers_closed; [exact IH|].
    vm_compute. tauto.
  - vm_compute. tauto.
Qed.


End Timer.


(* ===================================================================== *)
(** * The pipe queue                                                      *)
(* ===================================================================== *)

(** A check run on every number up to [n] holds of each of them. *)
Lemma checked_upto (P : nat -> bool) (n : nat) :
  forallb P (seq 0 (S n)) = true -> forall a, (a <= n)%nat -> P a = true.
Proof.
  intros Hall a Ha. rewrite forallb_forall in Hall.
  apply Hall, in_seq. lia.
Qed.

(** A frame moves a pipe by exactly three pixels. *)
Lemma pipe_x_by_threes (a : nat) :
  pipe_x a = Nat.iter a (fun x => (x - 3)%float) 567%float.
Proof.
  induction a as [|a IH]; [vm_compute; reflexivity|].
  change (pipe_x (S a))
    with (pipe_x a - ANIMATION_SPEED * frames_to_msec 1)%float.
  rewrite IH.
  replace (ANIMATION_SPEED * frames_to_msec 1)%float with 3%float
    by (vm_compute; reflexivity).
  reflexivity.
Qed.

(** A pipe is on screen until it is [oldest]. *)
Lemma pipe_x_visible (p : PipePair.t) (a : nat) :
  PipePair.x p = pipe_x a -> (a <= oldest)%nat ->
  PipePair.visible p = (a <? oldest)%nat.
Proof.
  intros Hx Ha. unfold PipePair.visible. rewrite Hx, pipe_x_by_threes.
  apply (checked_upto
    (fun a => Bool.eqb
       (Py.lt (Py.Int (- PipePair.WIDTH))
              (Py.Float (Nat.iter a (fun x => (x - 3)%float) 567%float)) &&
        Py.lt (Py.Float (Nat.iter a (fun x => (x - 3)%float) 567%float))
              (Py.Int WIN_WIDTH))
       (a <? oldest)%nat) oldest) in Ha; [|vm_compute; reflexivity].
  apply eqb_prop in Ha. exact Ha.
Qed.

(** The older of two pipes is the one further left. *)
Lemma pipe_x_decreasing (a b : nat) :
  (a < b)%nat -> (b <= oldest)%nat ->
  Py.lt (Py.Float (pipe_x b)) (Py.Float (pipe_x a)) = true.
Proof.
  intros Hab Hb. rewrite !pipe_x_by_threes.
  pose proof (checked_upto
    (fun b => forallb
       (fun a => (b <=? a)%nat ||
                 Py.lt (Py.Float (Nat.iter b (fun x => (x - 3)%float) 567%float))
                       (Py.Float (Nat.iter a (fun x => (x - 3)%float) 567%float)))
       (seq 0 (S oldest))) oldest) as Hcheck.
  specialize (Hcheck ltac:(vm_compute; reflexivity) b Hb).
  rewrite forallb_forall in Hcheck.
  specialize (Hcheck a ltac:(apply in_seq; lia)).
  apply orb_true_iff in Hcheck as [Hle | Hlt]; [|exact Hlt].
  apply Nat.leb_le in Hle. lia.
Qed.

Lemma tracked_left_to_right (lo serial : nat) (queue : list PipePair.t) :
  tracked lo oldest serial queue -> left_to_right queue.
Proof.
  intros (ages & Hx & Hages & Hrange & Hids & _). unfold left_to_right.
  revert ages Hx Hages Hrange Hids.
  induction queue as [|p rest IH]; intros ages Hx Hages Hrange Hids;
    [constructor|].
  destruct ages as [|a ages]; [discriminate|].
  injection Hx as Hxp Hxrest.
  apply StronglySorted_inv in Hages as [Hages Ha].
  apply Forall_cons in Hrange as [Hra Hrange].
  simpl in Hids. apply StronglySorted_inv in Hids as [Hids Hid].
  constructor; [eapply IH; eassumption|].
  clear IH. revert ages Hxrest Ha Hrange Hages.
  induction rest as [|p' rest IH]; intros ages Hxrest Ha Hrange Hages;
    [constructor|].
  destruct ages as [|a' ages]; [discriminate|].
  injection Hxrest as Hxp' Hxrest.
  apply Forall_cons in Ha as [Haa' Ha].
  apply Forall_cons in Hrange as [Hra' Hrange].
  simpl in Hid. apply Forall_cons in Hid as [Hpp' Hid].
  simpl in Hids. apply StronglySorted_inv in Hids as [Hids _].
  apply StronglySorted_inv in Hages as [Hages _].
  constructor.
  - split; [exact Hpp'|]. rewrite Hxp, Hxp'.
    apply pipe_x_decreasing; lia.
  - eapply IH; eassumption.
Qed.

Section Queue.
Context `{Random} `{Libm} `{Pygame}.

(** Appending the pipe [spawn] creates. *)
Lemma spawn_tracked (g : Game) :
  tracked 1 oldest (serial g) (pipes g) ->
  tracked 0 oldest (serial (spawn g)) (pipes (spawn g)).
Proof.
  intros (ages & Hx & Hages & Hrange & Hids & Hbelow).
  unfold spawn. destruct (negb _).
  - unfold PipePair.init.
    destruct (randint 1 PipePair.total_pipe_body_pieces (random_state g).1)
      as [drawn s1]. simpl.
    exists (ages ++ [0%nat]). rewrite !fmap_app, Hx. simpl.
    split; [reflexivity|].
    split.
    { apply StronglySorted_app_2; [|exact Hages|repeat constructor].
      intros a b Ha Hb. apply list_elem_of_singleton in Hb as ->.
      rewrite Forall_forall in Hrange. specialize (Hrange a Ha). lia. }
    split.
    { apply Forall_app. split; [|repeat constructor; unfold oldest; lia].
      eapply Forall_impl; [exact Hrange|]. simpl. lia. }
    split.
    { apply StronglySorted_app_2; [|exact Hids|repeat constructor].
      intros a b Ha Hb. apply list_elem_of_singleton in Hb as ->.
      apply list_elem_of_fmap in Ha as (p & -> & Hp).
      rewrite Forall_forall in Hbelow. apply Hbelow, Hp. }
    apply Forall_app. split; [|repeat constructor].
    eapply Forall_impl; [exact Hbelow|]. simpl. lia.
  - exists ages. repeat split; try assumption.
    eapply Forall_impl; [exact Hrange|]. simpl. lia.
Qed.

(** Dropping the pipes that have left the screen. *)
Lemma drop_invisible_tracked (serial : nat) (queue : list PipePair.t) :
  tracked 0 oldest serial queue ->
  tracked 0 (pred oldest) serial (drop_invisible queue).
Proof.
  intros (ages & Hx & Hages & Hrange & Hids & Hbelow).
  revert ages Hx Hages Hrange Hids Hbelow.
  induction queue as [|p rest IH]; intros ages Hx Hages Hrange Hids Hbelow.
  - exists []. simpl. repeat split; constructor.
  - destruct ages as [|a ages]; [discriminate|].
    injection Hx as Hxp Hxrest.
    apply StronglySorted_inv in Hages as [Hages Ha].
    apply Forall_cons in Hrange as [Hra Hrange].
    pose proof Hids as Hids0.
    simpl in Hids. apply StronglySorted_inv in Hids as [Hids Hid].
    pose proof Hbelow as Hbelow0.
    apply Forall_cons in Hbelow as [Hbp Hbelow].
    simpl. rewrite (pipe_x_visible p a Hxp) by lia.
    destruct (a <? oldest)%nat eqn:Hvis.
    + apply Nat.ltb_lt in Hvis. exists (a :: ages).
      split; [simpl; congruence|].
      split; [constructor; assumption|].
      split; [|split; assumption].
      constructor; [unfold oldest in *; simpl; lia|].
      rewrite Forall_forall in Ha, Hrange. apply Forall_forall.
      intros b Hb. specialize (Ha b Hb). specialize (Hrange b Hb).
      unfold oldest in *. simpl. lia.
    + eapply IH; eassumption.
Qed.

(** Moving every pipe one frame to the left. *)
Lemma update_tracked (serial : nat) (queue : list PipePair.t) :
  tracked 0 (pred oldest) serial queue ->
  tracked 1 oldest serial (PipePair.update <$> queue).
Proof.
  intros (ages & Hx & Hages & Hrange & Hids & Hbelow).
  exists (S <$> ages).
  split.
  { rewrite <- !list_fmap_compose.
    transitivity ((fun x => (x - ANIMATION_SPEED * frames_to_msec 1)%float)
                    <$> (PipePair.x <$> queue)).
    - rewrite <- list_fmap_compose. reflexivity.
    - rewrite Hx, <- list_fmap_compose. reflexivity. }
  split.
  { clear Hx Hrange. induction Hages as [|a ages Hs IH Ha]; [constructor|].
    simpl. constructor; [exact IH|].
    apply Forall_fmap. eapply Forall_impl; [exact Ha|]. simpl. lia. }
  split.
  { apply Forall_fmap. eapply Forall_impl; [exact Hrange|].
    unfold oldest. simpl. lia. }
  split.
  { rewrite <- list_fmap_compose. exact Hids. }
  apply Forall_fmap. exact Hbelow.
Qed.

(** Scoring touches neither positions nor identities. *)
Lemma score_pipes_same (b : Bird.t) (sc : Z) (queue : list PipePair.t) :
  PipePair.x <$> (score_pipes b sc queue).2 = PipePair.x <$> queue /\
  PipePair.ident <$> (score_pipes b sc queue).2 = PipePair.ident <$> queue /\
  shape <$> (score_pipes b sc queue).2 = shape <$> queue.
Proof.
  revert sc. induction queue as [|p rest IH]; intros sc; [repeat split|].
  simpl. unfold score_pipe.
  destruct (_ && _);
    match goal with
    | |- context [score_pipes b ?s rest] =>
        destruct (IH s) as (Hx & Hi & Hs);
        destruct (score_pipes b s rest) as [sc' rest']
    end; simpl;
    (split; [|split]); f_equal;
      first [exact Hx | exact Hi | exact Hs].
Qed.

Lemma score_pipes_tracked (lo hi serial : nat) (b : Bird.t) (sc : Z)
    (queue : list PipePair.t) :
  tracked lo hi serial queue ->
  tracked lo hi serial (score_pipes b sc queue).2.
Proof.
  intros (ages & Hx & Hages & Hrange & Hids & Hbelow).
  destruct (score_pipes_same b sc queue) as (Hsx & Hsi & _).
  exists ages. rewrite Hsx, Hsi. repeat split; try assumption.
  assert (Hids' : Forall (fun n => n < serial)%nat (PipePair.ident <$> queue))
    by (apply Forall_fmap; exact Hbelow).
  rewrite <- Hsi in Hids'. apply Forall_fmap in Hids'. exact Hids'.
Qed.

Lemma reachable_tracked (g : Game) :
  reachable g -> tracked 1 oldest (serial g) (pipes g).
Proof.
  induction 1 as [live0 | g i g' Hg IH Hdone Hrun | g Hg IH Hdone].
  - exists []. simpl. repeat split; constructor.
  - apply frame_world in Hrun
      as ((b & sc & ->) & _ & _ & -> & _); [|apply reachable_not_paused, Hg].
    apply score_pipes_tracked, update_tracked, drop_invisible_tracked,
      spawn_tracked, IH.
  - exists []. simpl. repeat split; constructor.
Qed.

(** C8, as the code has it.  In every reachable state the queue holds the
    pipes in the order they were created, and the pipes lie strictly left
    to right from front to back: the front pipe is the oldest and leftmost
    one (it stays the front while it is behind the bird, until it leaves
    the screen).  Spawning, moving and dropping keep it so. *)
Theorem queue_left_to_right (g : Game) :
  reachable g -> left_to_right (pipes g).
Proof.
  intros Hg. eapply tracked_left_to_right, reachable_tracked, Hg.
Qed.

End Queue.

(* ===================================================================== *)
(** * The obstacle layout                                                 *)
(* ===================================================================== *)

Section ObstacleLayout.
Context `{Random} `{Libm} `{Pygame}.

Lemma shape_drop (queue : list PipePair.t) :
  shape <$> drop_invisible queue = drop_shapes (shape <$> queue).
Proof.
  induction queue as [|p rest IH]; [reflexivity|].
  simpl. change (shape_visible (shape p)) with (PipePair.visible p).
  destruct (PipePair.visible p); [reflexivity | exact IH].
Qed.

Lemma shape_update (queue : list PipePair.t) :
  shape <$> (PipePair.update <$> queue) = move_shape <$> (shape <$> queue).
Proof.
  rewrite <- !list_fmap_compose. apply list_fmap_ext. intros _ p _. reflexivity.
Qed.

(** What [spawn] does to the layout in pass [n] of a life. *)
Lemma spawn_layout (g : Game) (n : nat) :
  paused g = false -> frame_clock g = Z.of_nat n ->
  layout (spawn g)
  = if Z.of_nat n mod frames_per_pipe =? 0 then
      let '(drawn, stream') :=
        randint 1 PipePair.total_pipe_body_pieces (layout g).1 in
      (stream',
       (layout g).2 ++ [(Py.nearest_double (WIN_WIDTH - 1),
                         PipePair.total_pipe_body_pieces - drawn + 1,
                         drawn + 1)])
    else layout g.
Proof.
  intros Hpaused Hclock. unfold spawn, layout.
  rewrite Hpaused, Hclock. simpl.
  destruct (Z.of_nat n mod frames_per_pipe =? 0); [|reflexivity]. simpl.
  unfold PipePair.init.
  destruct (randint 1 PipePair.total_pipe_body_pieces (random_state g).1)
    as [drawn s1].
  simpl. rewrite fmap_app. reflexivity.
Qed.

(** One pass of the loop moves the layout as [layout_step] says, whatever
    the events, the collisions, the table and the exploration stream. *)
Lemma frame_layout (i : Input) (g g' : Game) (n : nat) :
  paused g = false -> frame_clock g = Z.of_nat n -> frame i g = Ok g' ->
  layout g' = layout_step n (layout g).
Proof.
  intros Hpaused Hclock Hrun.
  apply frame_world in Hrun as ((b & sc & Hpipes) & _ & Hstream & _);
    [|exact Hpaused].
  pose proof (spawn_layout g n Hpaused Hclock) as Hspawn.
  unfold layout_step. rewrite <- Hspawn.
  unfold layout at 1. rewrite Hpipes, Hstream.
  destruct (score_pipes_same b sc
              (PipePair.update <$> drop_invisible (pipes (spawn g))))
    as (_ & _ & ->).
  rewrite shape_update, shape_drop. reflexivity.
Qed.

Lemma reachable_layout (g : Game) :
  reachable g ->
  exists n : nat, frame_clock g = Z.of_nat n /\ layout g = layout_at n.
Proof.
  induction 1 as [live0 | g i g' Hg IH Hdone Hrun | g Hg IH Hdone].
  - exists 0%nat. split; reflexivity.
  - destruct IH as (n & Hclock & Hlayout).
    pose proof (reachable_not_paused g Hg) as Hpaused.
    exists (S n). split.
    + apply frame_world in Hrun as (_ & -> & _); [lia | exact Hpaused].
    + simpl. rewrite <- Hlayout. eapply frame_layout; eassumption.
  - exists 0%nat. split; reflexivity.
Qed.

(** The obstacle stream after [n] passes has been drawn from once for every
    multiple of 180 below [n]. *)
Lemma layout_stream (n : nat) :
  (layout_at n).1 = obstacle_stream ((n + 179) / 180).
Proof.
  induction n as [|n IH]; [reflexivity|].
  simpl layout_at. unfold layout_step.
  destruct (Z.of_nat n mod frames_per_pipe =? 0) eqn:Hdue.
  - apply Z.eqb_eq in Hdue. unfold frames_per_pipe in Hdue.
    assert (Hmod : (n mod 180 = 0)%nat).
    { apply Nat2Z.inj. rewrite Nat2Z.inj_mod. exact Hdue. }
    assert (Hdiv : ((S n + 179) / 180 = S ((n + 179) / 180))%nat).
    { pose proof (Nat.div_mod_eq n 180) as Hn.
      rewrite Hmod, Nat.add_0_r in Hn.
      replace (S n + 179)%nat with (n + 179 + 1)%nat by lia.
      rewrite Hn at 1 2.
      replace (180 * (n / 180) + 179 + 1)%nat
        with ((1 + n / 180) * 180)%nat by lia.
      rewrite Nat.div_mul by lia.
      replace (180 * (n / 180) + 179)%nat
        with (179 + (n / 180) * 180)%nat by lia.
      rewrite Nat.div_add by lia. reflexivity. }
    rewrite Hdiv.
    change (obstacle_stream (S ((n + 179) / 180)))
      with (randint 1 PipePair.total_pipe_body_pieces
              (obstacle_stream ((n + 179) / 180))).2.
    rewrite <- IH.
    destruct (randint 1 PipePair.total_pipe_body_pieces (layout_at n).1)
      as [drawn s1].
    reflexivity.
  - apply Z.eqb_neq in Hdue. unfold frames_per_pipe in Hdue.
    assert (Hmod : (n mod 180 <> 0)%nat).
    { intros Hz. apply Hdue. change 180 with (Z.of_nat 180).
      rewrite <- Nat2Z.inj_mod, Hz. reflexivity. }
    assert (Hdiv : ((S n + 179) / 180 = (n + 179) / 180)%nat).
    { pose proof (Nat.div_mod_eq n 180) as Hn.
      pose proof (Nat.mod_upper_bound n 180 ltac:(lia)) as Hlt.
      set (r := (n mod 180)%nat) in *. set (d := (n / 180)%nat) in *.
      rewrite Hn.
      replace (S (180 * d + r) + 179)%nat with (r + d * 180 + 180)%nat by lia.
      replace (180 * d + r + 179)%nat with (r + 179 + d * 180)%nat by lia.
      rewrite (Nat.div_add (r + 179)) by lia.
      replace (r + d * 180 + 180)%nat with (r + (d + 1) * 180)%nat by lia.
      rewrite Nat.div_add by lia.
      rewrite (Nat.div_small r) by lia.
      replace ((r + 179) / 180)%nat with 1%nat; [lia|].
      apply Nat.div_unique with (r := (r - 1)%nat); lia. }
    rewrite Hdiv. destruct (layout_at n) as [stream shapes]. exact IH.
Qed.

(** C9. The obstacle layout does not depend on the agent.  In any
    reachable state the obstacle stream and the shapes of the queued pipes
    are [layout_at n], a function of the number [n] of passes made in the
    current life that is built from [seed 0] and [randint] alone: two
    reachable states with the same frame count, from whatever runs, lives,
    exploration states, tables and inputs, have the same layout.  The pipe
    spawned in pass [180 * j] of a life gets the [j]-th draw of the
    seed-0 stream as its [bottom_pieces] (plus the end piece). *)
Theorem obstacle_layout_deterministic (g1 g2 : Game) :
  reachable g1 -> reachable g2 -> frame_clock g1 = frame_clock g2 ->
  layout g1 = layout g2 /\
  (exists n : nat, frame_clock g1 = Z.of_nat n /\ layout g1 = layout_at n) /\
  (forall j : nat,
     frame_clock g1 = Z.of_nat (180 * j) ->
     exists pp,
       pipes (spawn g1) = pipes g1 ++ [pp] /\
       PipePair.bottom_pieces pp = obstacle_draw j + 1 /\
       PipePair.top_pieces pp
       = PipePair.total_pipe_body_pieces - obstacle_draw j + 1).
Proof.
  intros Hg1 Hg2 Hsame.
  destruct (reachable_layout g1 Hg1) as (n1 & Hc1 & Hl1).
  destruct (reachable_layout g2 Hg2) as (n2 & Hc2 & Hl2).
  assert (n1 = n2) as -> by lia.
  split; [congruence|].
  split; [eauto|].
  intros j Hj. assert (n2 = (180 * j)%nat) as -> by lia.
  assert (Hstream : (random_state g1).1 = obstacle_stream j).
  { change ((layout g1).1 = obstacle_stream j). rewrite Hl1, layout_stream.
    f_equal. replace (180 * j + 179)%nat with (179 + j * 180)%nat by lia.
    rewrite Nat.div_add by lia. reflexivity. }
  assert (Hdue : (frame_clock g1 mod frames_per_pipe =? 0) = true).
  { apply Z.eqb_eq. rewrite Hj, Nat2Z.inj_mul, Z.mul_comm.
    change (Z.of_nat 180) with frames_per_pipe. apply Z.mod_mul.
    discriminate. }
  unfold spawn. rewrite (reachable_not_paused g1 Hg1), Hdue.
  cbn [negb orb]. unfold PipePair.init, obstacle_draw. rewrite Hstream.
  destruct (randint 1 PipePair.total_pipe_body_pieces (obstacle_stream j))
    as [drawn s1].
  cbn. eexists. split; [reflexivity|]. split; reflexivity.
Qed.

End ObstacleLayout.

(* ===================================================================== *)
(** * The state encoder                                                   *)
(* ===================================================================== *)

(** [int()] of a double drops the fractional part. *)
Lemma int_of_float_truncation (f : float) (n : Z) :
  Py.int_of_float f = Ok n -> truncation f n.
Proof.
  unfold Py.int_of_float, truncation, Py.truncate.
  destruct (Prim2SF f) as [s|s| |s m e]; try discriminate.
  - intros [= <-]. reflexivity.
  - intros [= <-].
    assert (Hpos : 0 <= Z.shiftl (Z.pos m) e)
      by (apply Z.shiftl_nonneg; lia).
    split; [destruct s; simpl; lia|].
    assert (Habs : Z.abs (cond_Zopp s (Z.shiftl (Z.pos m) e))
                   = Z.shiftl (Z.pos m) e) by (destruct s; simpl; lia).
    rewrite Habs. destruct (0 <=? e) eqn:He.
    + apply Z.leb_le in He. apply Z.shiftl_mul_pow2. exact He.
    + apply Z.leb_gt in He.
      assert (Hshift : Z.shiftl (Z.pos m) e = Z.pos m / 2 ^ (- e)).
      { rewrite <- (Z.opp_involutive e) at 1.
        rewrite Z.shiftl_opp_r. apply Z.shiftr_div_pow2. lia. }
      rewrite Hshift.
      assert (Hk : 0 < 2 ^ (- e)) by (apply Z.pow_pos_nonneg; lia).
      split.
      * rewrite Z.mul_comm. apply Z.mul_div_le. exact Hk.
      * rewrite Z.mul_comm.
        change (Z.pos m `div` 2 ^ (- e) + 1)
          with (Z.succ (Z.pos m `div` 2 ^ (- e))).
        apply Z.mul_succ_div_gt. exact Hk.
Qed.

Lemma int_of_float_returns (f : float) :
  finite f = true -> exists n, Py.int_of_float f = Ok n.
Proof.
  unfold finite, Py.int_of_float.
  destruct (Prim2SF f); try discriminate; eauto.
Qed.


(* ===================================================================== *)
(** * Quitting                                                            *)
(* ===================================================================== *)

Section Quit.
Context `{Random} `{Libm} `{Pygame}.

Lemma save_and_stop_files (g : Game) :
  files (save_and_stop g) !! "foo.txt" = Some (str_dict (dict g)) /\
  files (save_and_stop g) !! "max_score.txt" = Some (str_int (max_score g)).
Proof.
  simpl. split.
  - rewrite lookup_insert_ne by discriminate. apply lookup_insert_eq.
  - apply lookup_insert_eq.
Qed.

(** C7 on the code: a quit request does not end the program.  The pass
    that sees it writes the table to [foo.txt] and the best score to
    [max_score.txt], sets [done] and runs to its end (the world still
    moves by one frame); the inner loop is then left, and the outer
    [while(1)] starts a new life, whose first pass is processed. *)
Theorem quit_starts_new_life (i i2 : Input) (g g1 g2 : Game) :
  done g = false ->
  paused g = false ->
  existsb quits (events i) = true ->
  frame i g = Ok g1 ->
  frame i2 (new_life g1) = Ok g2 ->
  done g1 = true /\
  frame_clock g1 = frame_clock g + 1 /\
  (exists d m,
     files g1 !! "foo.txt" = Some (str_dict d) /\
     files g1 !! "max_score.txt" = Some (str_int m)) /\
  run [i; i2] g = Ok g2 /\
  frame_clock g2 = 1 /\
  dict (new_life g1) = dict g1.
Proof.
  intros Hdone Hpaused Hquit Hrun Hnext.
  pose proof (frame_world i g g1 Hpaused Hrun) as (_ & Hclock & _).
  assert (Hdone1 : done g1 = true /\
            exists d m,
              files g1 !! "foo.txt" = Some (str_dict d) /\
              files g1 !! "max_score.txt" = Some (str_int m)).
  { unfold frame in Hrun.
    apply bind_Ok in Hrun as (g3 & Hint & Hrun).
    apply bind_Ok in Hrun as (g4 & Hbon & Hrun).
    rewrite handle_events_spec, Hquit in Hrun.
    assert (Hkept : done g1 = true /\ files g1 = files (save_and_stop g4)).
    { destruct (paused (save_and_stop g4)).
      - injection Hrun as <-. split; reflexivity.
      - apply bind_Ok in Hrun as (g7 & Hdie & Hrun). injection Hrun as <-.
        unfold death in Hdie.
        destruct (any_collision (ticks_frame i) (save_and_stop g4)
                  || out_of_bounds (bird (save_and_stop g4))).
        + apply bind_Ok in Hdie as (q & Hq & Hdie). injection Hdie as <-.
          unfold advance. destruct (score_pipes _ _ _) as [sc queue].
          simpl. destruct (_ <? _); split; reflexivity.
        + injection Hdie as <-. unfold advance.
          destruct (score_pipes _ _ _) as [sc queue]. split; reflexivity. }
    destruct Hkept as [Hd Hf]. split; [exact Hd|].
    exists (dict g4), (max_score g4). rewrite Hf.
    destruct (save_and_stop_files g4) as [Hfoo Hmax]. split; assumption. }
  destruct Hdone1 as [Hd1 Hfiles].
  split; [exact Hd1|]. split; [exact Hclock|]. split; [exact Hfiles|].
  split.
  { cbn [run]. rewrite Hdone, Hrun, bind_ret. cbn [run].
    rewrite Hd1, Hnext. reflexivity. }
  split; [|reflexivity].
  apply frame_world in Hnext as (_ & -> & _); reflexivity.
Qed.

End Quit.

(* ===================================================================== *)
(** * The cadence of the loop and the queue in closed form                *)
(* ===================================================================== *)

(** Linear arithmetic with division and remainder by constants. *)
Ltac modlia := zify; Z.to_euclidean_division_equations; lia.

(** Takes the hypotheses [block g = Ok g'] apart along the binds and
    matches of the block; closes goals that compare fields of states built
    with the setters. *)
Ltac block_inv :=
  repeat match goal with
  | H : Raise _ = Ok _ |- _ => discriminate H
  | H : Ok _ = Ok _ |- _ => injection H as <-
  | H : (_ ≫= _) = Ok _ |- _ => bind_inv H
  | H : match ?x with _ => _ end = Ok _ |- _ => destruct x eqn:?
  end.

Ltac fields :=
  repeat first
    [ reflexivity
    | progress simpl
    | match goal with
      | |- context [if ?b then _ else _] => destruct b
      end ].

Section Cadence.
Context `{Random} `{Libm} `{Pygame}.

(** The passes of a frame, one after the other. *)
Lemma frame_steps (i : Input) (g g' : Game) :
  paused g = false ->
  frame i g = Ok g' ->
  exists g3 g4 g7,
    interval i (at_check g) = Ok g3 /\
    bonus g3 = Ok g4 /\
    death i (handle_events (events i) g4) = Ok g7 /\
    g' = advance g7.
Proof.
  intros Hpaused Hrun. unfold frame in Hrun. fold (at_check g) in Hrun.
  assert (Hw : world (at_check g) = world (spawn g))
    by (apply spawn_world, decide_world).
  apply bind_Ok in Hrun as (g3 & Hint & Hrun).
  apply bind_Ok in Hrun as (g4 & Hbon & Hrun).
  pose proof (interval_world _ _ _ Hint) as [Hw3 _].
  pose proof (bonus_world _ _ Hbon) as [Hw4 _].
  destruct (handle_events_world (events i) g4) as [Hw6 _].
  assert (Hp : paused (handle_events (events i) g4) = false).
  { assert (Hall : world (handle_events (events i) g4) = world (spawn g))
      by congruence.
    unfold world in Hall. injection Hall as _ _ _ _ ->.
    unfold spawn. destruct (negb _); [|exact Hpaused].
    destruct (PipePair.init _ _ _) as [[pp rs] lv]. exact Hpaused. }
  rewrite Hp in Hrun.
  apply bind_Ok in Hrun as (g7 & Hdie & Hrun). injection Hrun as <-.
  exists g3, g4, g7. repeat split; assumption.
Qed.

Lemma at_check_counter (g : Game) :
  fps_to_next_action (at_check g) = fps_to_next_action g + 1.
Proof.
  unfold at_check, spawn, decide.
  destruct (fps_to_next_action g =? 0) eqn:Hz.
  - destruct (determine_action _ _ _ _ _ _) as [[a rs] lv].
    destruct a; simpl; destruct (negb _); simpl;
      try destruct (PipePair.init _ _ _) as [[pp rs'] lv']; reflexivity.
  - destruct (negb _); simpl;
      try destruct (PipePair.init _ _ _) as [[pp rs'] lv']; reflexivity.
Qed.

Lemma frame_counter (i : Input) (g g' : Game) :
  paused g = false ->
  frame i g = Ok g' ->
  fps_to_next_action g'
  = if fps_to_next_action g + 1 =? 15 then 0 else fps_to_next_action g + 1.
Proof.
  intros Hpaused Hrun.
  apply frame_steps in Hrun as (g3 & g4 & g7 & Hint & Hbon & Hdie & ->);
    [|exact Hpaused].
  assert (H7 : fps_to_next_action (advance g7) = fps_to_next_action g3).
  { unfold advance. destruct (score_pipes _ _ _) as [sc queue]. simpl.
    unfold death in Hdie. rewrite handle_events_spec in Hdie.
    unfold bonus in Hbon.
    destruct (existsb quits (events i)); block_inv; fields. }
  rewrite H7. unfold interval in Hint.
  rewrite at_check_counter in Hint.
  destruct (fps_to_next_action g + 1 =? 15).
  - block_inv. fields.
  - injection Hint as <-. apply at_check_counter.
Qed.

Lemma reachable_counter (g : Game) :
  reachable g ->
  0 <= frame_clock g /\ fps_to_next_action g = frame_clock g mod 15.
Proof.
  induction 1 as [live0 | g i g' Hg IH Hdone Hrun | g Hg IH Hdone].
  - split; [reflexivity | reflexivity].
  - destruct IH as [Hpos Hfps].
    pose proof (reachable_not_paused g Hg) as Hpaused.
    pose proof (frame_counter i g g' Hpaused Hrun) as Hstep.
    apply frame_world in Hrun as (_ & Hclock & _); [|exact Hpaused].
    rewrite Hstep, Hclock, Hfps. split; [lia|].
    destruct (Z.eqb_spec (frame_clock g mod 15 + 1) 15); modlia.
  - split; reflexivity.
Qed.

(** X1. The decision cadence.  In every reachable state the frame counter
    [fps_to_next_action] is the frame count of the life modulo 15: the
    agent decides in the passes 0, 15, 30, ... of a life and the interval
    check runs in the passes 14, 29, 44, ... *)
Theorem decision_cadence (g : Game) :
  reachable g ->
  0 <= frame_clock g /\
  fps_to_next_action g = frame_clock g mod 15 /\
  (forall i g', frame i g = Ok g' ->
     (action g' <> action g -> frame_clock g mod 15 = 0) /\
     (state g' <> state g -> frame_clock g mod 15 = 14)).
Proof.
  intros Hg. destruct (reachable_counter g Hg) as [Hpos Hfps].
  split; [exact Hpos|]. split; [exact Hfps|].
  intros i g' Hrun.
  pose proof (reachable_not_paused g Hg) as Hpaused.
  apply frame_steps in Hrun as (g3 & g4 & g7 & Hint & Hbon & Hdie & ->);
    [|exact Hpaused].
  assert (H7 : action (advance g7) = action g3 /\ state (advance g7) = state g3).
  { unfold advance. destruct (score_pipes _ _ _) as [sc queue]. simpl.
    unfold death in Hdie. rewrite handle_events_spec in Hdie.
    unfold bonus in Hbon.
    destruct (existsb quits (events i)); block_inv; split; fields. }
  destruct H7 as [-> ->].
  assert (Hb : action (at_check g) = action (decide g) /\
               state (at_check g) = state g).
  { unfold at_check, spawn, decide.
    destruct (fps_to_next_action g =? 0).
    - destruct (determine_action _ _ _ _ _ _) as [[a rs] lv].
      destruct a; simpl; destruct (negb _); simpl;
        try destruct (PipePair.init _ _ _) as [[pp rs'] lv']; split; reflexivity.
    - destruct (negb _); simpl;
        try destruct (PipePair.init _ _ _) as [[pp rs'] lv']; split; reflexivity. }
  destruct Hb as [Hba Hbs].
  unfold interval in Hint. rewrite at_check_counter in Hint.
  split.
  - intros Hchanged.
    assert (Ha3 : action g3 = action (decide g)).
    { destruct (fps_to_next_action g + 1 =? 15); block_inv; rewrite <- Hba; fields. }
    rewrite Ha3 in Hchanged. unfold decide in Hchanged.
    destruct (Z.eqb_spec (fps_to_next_action g) 0) as [Hz|Hnz];
      [congruence | contradiction].
  - intros Hchanged.
    destruct (Z.eqb_spec (fps_to_next_action g + 1) 15) as [H15|Hn15]; [lia|].
    injection Hint as <-. congruence.
Qed.

End Cadence.

Lemma drop_invisible_ages (queue : list PipePair.t) (ages : list nat) :
  PipePair.x <$> queue = pipe_x <$> ages ->
  Forall (fun a => a <= oldest)%nat ages ->
  PipePair.x <$> drop_invisible queue = pipe_x <$> drop_old ages.
Proof.
  revert ages. induction queue as [|p rest IH]; intros ages Hx Hold.
  - destruct ages; [reflexivity | discriminate].
  - destruct ages as [|a ages]; [discriminate|].
    injection Hx as Hxp Hxrest. apply Forall_cons in Hold as [Ha Hold].
    simpl. rewrite (pipe_x_visible p a Hxp Ha).
    destruct (a <? oldest)%nat; [simpl; congruence | apply IH; assumption].
Qed.

(** The ages after one more pass: a pipe of age 0 joins when 180 divides
    the frame count, the pipe of age 216 leaves, all grow older by one. *)
Lemma ages_step (n : nat) :
  S <$> drop_old (ages_at n ++ if Z.of_nat n mod frames_per_pipe =? 0
                               then [0%nat] else [])
  = ages_at (S n).
Proof.
  unfold ages_at, youngest, frames_per_pipe.
  destruct (Z.eqb_spec (Z.of_nat n mod 180) 0) as [Hdue|Hdue];
    destruct (Nat.eqb_spec n 0) as [Hz|Hz];
    destruct (Nat.eqb_spec (S n) 0) as [Hs|_]; try lia;
    destruct (Nat.ltb_spec 180 n) as [Hn|Hn];
    destruct (Nat.ltb_spec 180 (S n)) as [Hsn|Hsn];
    destruct (Nat.leb_spec ((n - 1) mod 180 + 1) 36) as [Ha|Ha];
    destruct (Nat.leb_spec ((S n - 1) mod 180 + 1) 36) as [Hsa|Hsa];
    cbn [andb]; cbv iota; try (exfalso; modlia);
    cbn [app drop_old];
    unfold oldest;
    repeat match goal with
    | |- context [(?a <? 216)%nat] =>
        destruct (Nat.ltb_spec a 216);
        try (exfalso; modlia); cbn [drop_old]; unfold oldest
    end;
    cbn [fmap list_fmap]; repeat (f_equal; try modlia).
Qed.

Section QueueShape.
Context `{Random} `{Libm} `{Pygame}.

Lemma spawn_positions (g : Game) :
  paused g = false ->
  PipePair.x <$> pipes (spawn g)
  = (PipePair.x <$> pipes g)
      ++ if frame_clock g mod frames_per_pipe =? 0 then [pipe_x 0] else [].
Proof.
  intros Hpaused. unfold spawn. rewrite Hpaused. simpl.
  destruct (frame_clock g mod frames_per_pipe =? 0); simpl.
  - destruct (PipePair.init _ _ _) as [[pp rs] lv] eqn:Hinit. simpl.
    rewrite fmap_app. simpl. f_equal. f_equal.
    unfold PipePair.init in Hinit.
    destruct (randint _ _ _) as [drawn s1]. injection Hinit as <- _ _.
    reflexivity.
  - rewrite app_nil_r. reflexivity.
Qed.

Lemma reachable_ages (g : Game) :
  reachable g ->
  exists n : nat,
    frame_clock g = Z.of_nat n /\
    PipePair.x <$> pipes g = pipe_x <$> ages_at n.
Proof.
  induction 1 as [live0 | g i g' Hg IH Hdone Hrun | g Hg IH Hdone].
  - exists 0%nat. split; reflexivity.
  - destruct IH as (n & Hclock & Hages).
    pose proof (reachable_not_paused g Hg) as Hpaused.
    apply frame_world in Hrun as ((b & sc & ->) & Hnext & _); [|exact Hpaused].
    exists (S n). split; [lia|].
    destruct (score_pipes_same b sc
                (PipePair.update <$> drop_invisible (pipes (spawn g))))
      as (-> & _).
    rewrite <- ages_step, <- list_fmap_compose.
    transitivity ((fun x => (x - ANIMATION_SPEED * frames_to_msec 1)%float)
                    <$> (PipePair.x <$> drop_invisible (pipes (spawn g)))).
    { rewrite <- !list_fmap_compose. reflexivity. }
    rewrite (drop_invisible_ages (pipes (spawn g))
               (ages_at n ++ if Z.of_nat n mod frames_per_pipe =? 0
                             then [0%nat] else [])).
    + rewrite <- !list_fmap_compose. apply list_fmap_ext.
      intros _ a _. reflexivity.
    + rewrite (spawn_positions g Hpaused), Hages, Hclock, fmap_app.
      destruct (Z.of_nat n mod frames_per_pipe =? 0); reflexivity.
    + apply Forall_app. split.
      * unfold ages_at, youngest, oldest.
        destruct (n =? 0)%nat; [constructor|].
        destruct ((180 <? n)%nat && (_ <=? 36)%nat) eqn:Hboth.
        -- apply andb_true_iff in Hboth as [_ Hle].
           apply Nat.leb_le in Hle.
           repeat (apply Forall_cons; split); try apply Forall_nil; modlia.
        -- repeat (apply Forall_cons; split); try apply Forall_nil; modlia.
      * destruct (_ =? 0); repeat (apply Forall_cons; split);
          try apply Forall_nil; unfold oldest; lia.
  - exists 0%nat. split; reflexivity.
Qed.

(** X2. The queue in closed form.  After [n >= 1] passes of a life the
    queue holds one or two pipes: the youngest, of age
    [(n - 1) mod 180 + 1], and, during the 36 passes after each spawn but
    the first, the one spawned 180 passes before it.  A pipe of age [a] is
    at [x = 567 - 3a] exactly; so the queue is never empty once a life has
    made a pass, never longer than two, and its pipes lie between
    x = -81 and x = 564. *)
Theorem queue_closed_form (g : Game) :
  reachable g ->
  exists n : nat,
    frame_clock g = Z.of_nat n /\
    PipePair.x <$> pipes g = pipe_x <$> ages_at n /\
    (n = 0%nat -> pipes g = []) /\
    (1 <= n -> 1 <= length (pipes g) <= 2)%nat /\
    Forall (fun p => exists a : nat,
              (1 <= a <= oldest)%nat /\
              PipePair.x p = Py.nearest_double (567 - 3 * Z.of_nat a))
           (pipes g).
Proof.
  intros Hg. destruct (reachable_ages g Hg) as (n & Hclock & Hages).
  exists n. split; [exact Hclock|]. split; [exact Hages|].
  assert (Hlen : length (pipes g) = length (ages_at n)).
  { rewrite <- (length_fmap PipePair.x), Hages, length_fmap. reflexivity. }
  split; [|split].
  - intros ->. destruct (pipes g); [reflexivity | discriminate].
  - intros Hn. rewrite Hlen. unfold ages_at.
    destruct (Nat.eqb_spec n 0); [lia|].
    destruct (_ && _); simpl; lia.
  - assert (Hrange : Forall (fun a => 1 <= a <= oldest)%nat (ages_at n)).
    { unfold ages_at, youngest, oldest.
      destruct (n =? 0)%nat; [constructor|].
      destruct ((180 <? n)%nat && (_ <=? 36)%nat) eqn:Hboth.
      - apply andb_true_iff in Hboth as [_ Hle].
        apply Nat.leb_le in Hle.
           repeat (apply Forall_cons; split); try apply Forall_nil; modlia.
      - repeat (apply Forall_cons; split); try apply Forall_nil; modlia. }
    revert Hages Hrange. generalize (ages_at n). clear.
    induction (pipes g) as [|p rest IH]; intros ages Hages Hrange;
      [constructor|].
    destruct ages as [|a ages]; [discriminate|].
    injection Hages as Hp Hrest. apply Forall_cons in Hrange as [Ha Hrange].
    constructor; [|eapply IH; eassumption].
    exists a. split; [exact Ha|]. rewrite Hp, pipe_x_by_threes.
    apply FloatAxioms.Leibniz.eqb_spec.
    apply (checked_upto
      (fun a => PrimFloat.Leibniz.eqb
                  (Nat.iter a (fun x => (x - 3)%float) 567%float)
                  (Py.nearest_double (567 - 3 * Z.of_nat a))) oldest);
      [vm_compute; reflexivity | lia].
Qed.

End QueueShape.

(* ===================================================================== *)
(** * What the loop can raise                                             *)
(* ===================================================================== *)

Lemma bind_Raise {A B} (r : result A) (k : A -> result B) (e : Py.exn) :
  r ≫= k = Raise e -> r = Raise e \/ exists a, r = Ok a /\ k a = Raise e.
Proof.
  destruct r as [a|e']; simpl; intros Hr; [right; eauto | left; congruence].
Qed.

Lemma float_of_int_raises (z : Z) (e : Py.exn) :
  Py.float_of_int z = Raise e -> e = Py.OverflowError.
Proof.
  unfold Py.float_of_int. destruct (is_infinity _); congruence.
Qed.

Lemma to_float_raises (v : Py.num) (e : Py.exn) :
  Py.to_float v = Raise e -> e = Py.OverflowError.
Proof.
  destruct v as [z|f]; simpl; [apply float_of_int_raises | discriminate].
Qed.

Lemma arith_raises (iop : Z -> Z -> Z) (fop : float -> float -> float)
    (a b : Py.num) (e : Py.exn) :
  Py.arith iop fop a b = Raise e -> e = Py.OverflowError.
Proof.
  unfold Py.arith.
  destruct a as [x|x], b as [y|y]; try discriminate; simpl;
    repeat match goal with
    | |- context [Py.float_of_int ?z] =>
        destruct (Py.float_of_int z) eqn:?; simpl
    end;
    try discriminate; intros [= <-];
    eauto using float_of_int_raises.
Qed.

Lemma learn_raises (gamma : float) (reward : Z) (best q : Py.num)
    (e : Py.exn) :
  learn gamma reward best q = Raise e -> e = Py.OverflowError.
Proof.
  unfold learn, Py.mul, Py.add, Py.sub. intros Hl.
  repeat match goal with
  | H : _ ≫= _ = Raise _ |- _ =>
      apply bind_Raise in H as [H | (? & _ & H)]
  end; eapply arith_raises; eassumption.
Qed.

Lemma int_raises (v : Py.num) (e : Py.exn) :
  Py.int v = Raise e -> numeric e.
Proof.
  unfold numeric, Py.int, Py.int_of_float.
  destruct v as [z|f]; [discriminate|].
  destruct (Prim2SF f); intros [= <-]; auto.
Qed.

Lemma new_state_raises (b : Bird.t) (p : PipePair.t) (dead : bool)
    (e : Py.exn) :
  new_state b p dead = Raise e -> numeric e.
Proof.
  unfold new_state, Py.sub. intros Hn.
  repeat match goal with
  | H : _ ≫= _ = Raise _ |- _ =>
      apply bind_Raise in H as [H | (? & _ & H)]
  end;
    try discriminate;
    first [ left; eapply arith_raises; eassumption
          | eapply int_raises; eassumption ].
Qed.

Section Safety.
Context `{Random} `{Libm} `{Pygame}.

(** What a state remembers of the queue. *)
Lemma at_check_memo (g : Game) :
  paused g = false ->
  pipes (at_check g) = pipes (spawn g) /\
  old_pipe (at_check g) = old_pipe (spawn g) /\
  dead (at_check g) = dead g.
Proof.
  intros Hpaused.
  set (h := set_fps_to_next_action (fps_to_next_action (decide g) + 1)
              (decide g)).
  assert (Hw : world h = world g) by apply decide_world.
  assert (Hm : old_pipe h = old_pipe g /\ dead h = dead g).
  { unfold h, decide. destruct (fps_to_next_action g =? 0); [|split; reflexivity].
    destruct (determine_action _ _ _ _ _ _) as [[a rs] lv].
    destruct a; split; reflexivity. }
  destruct Hm as [Hold Hdead].
  pose proof (spawn_world g h Hw) as Hsw.
  change (at_check g) with (spawn h).
  assert (Hpa : paused h = paused g)
    by exact (f_equal (fun w => w.2) Hw).
  assert (Hc : frame_clock h = frame_clock g)
    by exact (f_equal (fun w => w.1.1.1.2) Hw).
  assert (Hsp : pipes (spawn h) = pipes (spawn g))
    by exact (f_equal (fun w => w.1.1.1.1) Hsw).
  split; [exact Hsp|].
  revert Hsp. unfold spawn. rewrite Hpa, Hc.
  destruct (negb _).
  - destruct (PipePair.init (serial h) _ _) as [[pp rs] lv].
    destruct (PipePair.init (serial g) _ _) as [[pp' rs'] lv'].
    simpl. intros ->. split; [reflexivity | exact Hdead].
  - intros _. split; assumption.
Qed.

Lemma spawn_memo (g : Game) :
  paused g = false ->
  dead (spawn g) = dead g /\
  if frame_clock g mod frames_per_pipe =? 0
  then exists pp,
         pipes (spawn g) = pipes g ++ [pp] /\
         PipePair.x pp = pipe_x 0 /\
         old_pipe (spawn g) = PipePair.ident <$> head (pipes g ++ [pp])
  else pipes (spawn g) = pipes g /\ old_pipe (spawn g) = old_pipe g.
Proof.
  intros Hpaused. unfold spawn. rewrite Hpaused. simpl.
  destruct (frame_clock g mod frames_per_pipe =? 0); simpl.
  - unfold PipePair.init. destruct (randint _ _ _) as [drawn s1]. simpl.
    split; [reflexivity|]. eexists. repeat split.
  - repeat split.
Qed.

Lemma interval_memo (i : Input) (g g' : Game) :
  interval i g = Ok g' ->
  pipes g' = pipes g /\ old_pipe g' = old_pipe g /\
  (dead g' = None -> dead g = None /\ fps_to_next_action g <> 15).
Proof.
  unfold interval. intros Hrun.
  destruct (Z.eqb_spec (fps_to_next_action g) 15) as [H15|H15].
  - block_inv.
    destruct (any_collision _ _ || out_of_bounds _);
      (split; [reflexivity|]; split; [reflexivity|]); discriminate.
  - injection Hrun as <-. auto.
Qed.

Lemma later_memo (i : Input) (g g' : Game) :
  death i (handle_events (events i) g) = Ok g' ->
  pipes g' = pipes g /\ old_pipe g' = old_pipe g /\ dead g' = dead g.
Proof.
  rewrite handle_events_spec. unfold death. intros Hrun.
  destruct (existsb quits (events i)); block_inv; repeat split; fields.
Qed.

Lemma advance_memo (g : Game) :
  PipePair.ident <$> pipes (advance g)
  = PipePair.ident <$> drop_invisible (pipes g) /\
  old_pipe (advance g) = old_pipe g /\ dead (advance g) = dead g.
Proof.
  unfold advance.
  destruct (score_pipes_same (Bird.update (bird g)) (score g)
              (PipePair.update <$> drop_invisible (pipes g)))
    as (_ & Hids & _).
  destruct (score_pipes _ _ _) as [sc queue]. simpl in *.
  rewrite Hids, <- list_fmap_compose. repeat split.
Qed.

(** [bonus] with a front pipe, a bound [old_pipe], and [dead] bound or the
    remembered pipe still in front: it returns, and keeps the queue and
    [dead]; [old_pipe] stays bound and is not changed if it is the front. *)
Lemma bonus_returns (g : Game) (p : PipePair.t) (rest : list PipePair.t)
    (r : nat) :
  pipes g = p :: rest ->
  old_pipe g = Some r ->
  (dead g = None -> r = PipePair.ident p) ->
  exists g',
    bonus g = Ok g' /\ pipes g' = pipes g /\ dead g' = dead g /\
    old_pipe g' <> None /\
    (r = PipePair.ident p -> old_pipe g' = Some r).
Proof.
  intros Hpipes Hold Hdead. unfold bonus, front. rewrite Hold, Hpipes.
  rewrite bind_ret.
  destruct (Nat.eqb_spec r (PipePair.ident p)) as [Heq|Hne]; simpl.
  - exists g. rewrite Hold. repeat split; congruence.
  - destruct (max_score g <? score g).
    + destruct (dead g) as [[|]|] eqn:Hd.
      * exists g. rewrite Hold. repeat split; congruence.
      * rewrite add_100, bind_ret. eexists. split; [reflexivity|].
        simpl. repeat split; congruence.
      * specialize (Hdead eq_refl). contradiction.
    + exists g. rewrite Hold. repeat split; congruence.
Qed.

(** The invariant behind it: [old_pipe] is bound once a life has made a
    pass, and as long as [dead] is unbound the life is in its first 14
    passes and the queue holds the remembered pipe alone. *)
Lemma reachable_memo (g : Game) :
  reachable g ->
  (1 <= frame_clock g -> old_pipe g <> None) /\
  (dead g = None ->
     frame_clock g <= 14 /\
     (1 <= frame_clock g ->
        exists p, pipes g = [p] /\ old_pipe g = Some (PipePair.ident p))).
Proof.
  induction 1 as [live0 | g i g' Hg IH Hdone Hrun | g Hg IH Hdone].
  - split; [simpl; lia|]. intros _. simpl. split; lia.
  - destruct IH as [IHold IHdead].
    pose proof (reachable_not_paused g Hg) as Hpaused.
    destruct (reachable_counter g Hg) as [Hpos Hfps].
    destruct (reachable_ages g Hg) as (n & Hclock & Hages).
    pose proof (frame_world i g g' Hpaused Hrun) as (_ & Hnext & _).
    apply frame_steps in Hrun as (g3 & g4 & g7 & Hint & Hbon & Hdie & ->);
      [|exact Hpaused].
    destruct (at_check_memo g Hpaused) as (Hcp & Hco & Hcd).
    destruct (spawn_memo g Hpaused) as [_ Hspawn].
    destruct (interval_memo _ _ _ Hint) as (H3p & H3o & H3d).
    destruct (later_memo _ _ _ Hdie) as (H7p & H7o & H7d).
    destruct (advance_memo g7) as (Hap & Hao & Had).
    (* the queue and the memory as [bonus] finds them *)
    assert (Hfront : exists p rest r,
               pipes g3 = p :: rest /\ old_pipe g3 = Some r /\
               (dead g3 = None -> r = PipePair.ident p /\ rest = [] /\
                                  PipePair.x p = pipe_x n /\ (n <= 13)%nat)).
    { rewrite H3p, H3o, Hcp, Hco.
      destruct (Z.eqb_spec (frame_clock g mod frames_per_pipe) 0) as [Hdue|Hdue].
      - destruct Hspawn as (pp & -> & Hxpp & ->).
        destruct (pipes g) as [|p rest] eqn:Hpipes.
        + simpl. exists pp, [], (PipePair.ident pp).
          split; [reflexivity|]. split; [reflexivity|]. intros _.
          assert (n = 0%nat) as ->.
          { destruct (Nat.eqb_spec n 0) as [Hz|Hz]; [exact Hz|].
            unfold ages_at in Hages.
            destruct (Nat.eqb_spec n 0); [contradiction|].
            destruct (_ && _); discriminate. }
          split; [reflexivity|]. split; [reflexivity|].
          split; [exact Hxpp | lia].
        + simpl. exists p, (rest ++ [pp]), (PipePair.ident p).
          split; [reflexivity|]. split; [reflexivity|].
          intros Hd3. destruct (H3d Hd3) as [Hd _]. rewrite Hcd in Hd.
          destruct (IHdead Hd) as [Hle Hone].
          assert (Hn : n <> 0%nat).
          { intros ->. unfold ages_at in Hages. simpl in Hages. discriminate. }
          unfold frames_per_pipe in Hdue. exfalso. modlia.
      - destruct Hspawn as [-> ->].
        assert (Hn : n <> 0%nat).
        { intros ->. apply Hdue. rewrite Hclock. reflexivity. }
        destruct (old_pipe g) as [r|] eqn:Hold; [|exfalso; apply IHold; [lia|reflexivity]].
        destruct (pipes g) as [|p rest] eqn:Hpipes.
        { unfold ages_at in Hages. destruct (Nat.eqb_spec n 0); [contradiction|].
          destruct (_ && _); discriminate. }
        exists p, rest, r. split; [reflexivity|]. split; [reflexivity|].
        intros Hd3. destruct (H3d Hd3) as [Hd _]. rewrite Hcd in Hd.
        destruct (IHdead Hd) as [Hle Hone].
        destruct (Hone ltac:(lia)) as (p0 & [= -> ->] & [= ->]).
        assert (Hn13 : (n <= 13)%nat).
        { destruct (H3d Hd3) as [_ Hn15].
          rewrite at_check_counter, Hfps in Hn15. modlia. }
        repeat split; try assumption.
        unfold ages_at, youngest in Hages.
        destruct (Nat.eqb_spec n 0); [contradiction|].
        destruct (Nat.ltb_spec 180 n) as [Hbig|_];
          [exfalso; clear - Hbig Hn13; lia|].
        cbn [andb fmap list_fmap] in Hages.
        rewrite (Nat.mod_small (n - 1) 180) in Hages by lia.
        injection Hages as ->. f_equal. lia. }
    destruct Hfront as (p & rest & r & Hp3 & Ho3 & Hd3).
    destruct (bonus_returns g3 p rest r Hp3 Ho3
                (fun Hd => proj1 (Hd3 Hd))) as (g4' & Hbon' & H4p & H4d & H4o & H4same).
    rewrite Hbon in Hbon'. injection Hbon' as <-.
    split.
    + intros _. rewrite Hao, H7o. exact H4o.
    + intros Hdead'. rewrite Had, H7d, H4d in Hdead'.
      destruct (Hd3 Hdead') as (-> & -> & Hx & Hn13).
      split; [lia|]. intros _.
      assert (Hkeep : drop_invisible (pipes g7) = [p]).
      { rewrite H7p, H4p, Hp3. simpl.
        rewrite (pipe_x_visible p n Hx) by (unfold oldest; lia).
        destruct (Nat.ltb_spec n oldest); [reflexivity|].
        unfold oldest in *. lia. }
      rewrite Hkeep in Hap. simpl in Hap.
      destruct (pipes (advance g7)) as [|p' [|p'' rest']];
        try discriminate.
      injection Hap as Hid. exists p'. split; [reflexivity|].
      rewrite Hao, H7o, (H4same eq_refl), Hid. reflexivity.
  - destruct IH as [IHold IHdead]. split; [simpl; lia|].
    intros _. simpl. split; lia.
Qed.

(** A pass from a reachable state finds a front pipe for [pipes[0]],
    [old_pipe] bound, and [dead] bound whenever it is read: it can fail
    only in arithmetic. *)
Lemma frame_fails_numerically (i : Input) (g : Game) (e : Py.exn) :
  reachable g ->
  frame i g = Raise e ->
  numeric e.
Proof.
  intros Hg Hrun.
  pose proof (reachable_not_paused g Hg) as Hpaused.
  destruct (reachable_memo g Hg) as [IHold IHdead].
  destruct (reachable_counter g Hg) as [Hpos Hfps].
  destruct (reachable_ages g Hg) as (n & Hclock & Hages).
  destruct (at_check_memo g Hpaused) as (Hcp & Hco & Hcd).
  destruct (spawn_memo g Hpaused) as [_ Hspawn].
  assert (Hqueue : exists p rest r,
             pipes (at_check g) = p :: rest /\
             old_pipe (at_check g) = Some r /\
             (dead g = None -> r = PipePair.ident p)).
  { rewrite Hcp, Hco.
    destruct (Z.eqb_spec (frame_clock g mod frames_per_pipe) 0) as [Hdue|Hdue].
    - destruct Hspawn as (pp & -> & _ & ->).
      destruct (pipes g) as [|p rest] eqn:Hpipes.
      + exists pp, [], (PipePair.ident pp). repeat split.
      + exists p, (rest ++ [pp]), (PipePair.ident p). repeat split.
    - destruct Hspawn as [-> ->].
      assert (Hn : n <> 0%nat).
      { intros ->. apply Hdue. rewrite Hclock. reflexivity. }
      destruct (old_pipe g) as [r|] eqn:Hold;
        [|exfalso; apply IHold; [lia|reflexivity]].
      destruct (pipes g) as [|p rest] eqn:Hpipes.
      { unfold ages_at in Hages. destruct (Nat.eqb_spec n 0); [contradiction|].
        destruct (_ && _); discriminate. }
      exists p, rest, r. split; [reflexivity|]. split; [reflexivity|].
      intros Hd. destruct (IHdead Hd) as [_ Hone].
      destruct (Hone ltac:(lia)) as (p0 & [= -> ->] & [= ->]). reflexivity. }
  destruct Hqueue as (p & rest & r & Hp & Ho & Hd).
  unfold frame in Hrun. fold (at_check g) in Hrun.
  apply bind_Raise in Hrun as [Hint | (g3 & Hint & Hrun)].
  { (* the interval check *)
    unfold interval, front in Hint.
    destruct (fps_to_next_action (at_check g) =? 15); [|discriminate].
    destruct (any_collision (ticks_interval i) (at_check g)
              || out_of_bounds (bird (at_check g)));
      cbn [pipes set_done set_dead] in Hint; rewrite Hp, bind_ret in Hint;
      (apply bind_Raise in Hint as [Hint | (next & _ & Hint)];
         [eapply new_state_raises; eassumption|]);
      (apply bind_Raise in Hint as [Hint | (q & _ & Hint)]; [|discriminate]);
      left; eapply learn_raises; eassumption. }
  destruct (interval_memo _ _ _ Hint) as (H3p & H3o & H3d).
  destruct (bonus_returns g3 p rest r) as (g4 & Hbon & _);
    [congruence | congruence | |].
  { intros Hd3. destruct (H3d Hd3) as [Hdc _]. apply Hd. congruence. }
  rewrite Hbon, bind_ret in Hrun.
  destruct (paused (handle_events (events i) g4)); [discriminate|].
  apply bind_Raise in Hrun as [Hdie | (g7 & _ & Hrun)]; [|discriminate].
  unfold death in Hdie.
  destruct (_ || _); [|discriminate].
  apply bind_Raise in Hdie as [Hdie | (q & _ & Hdie)]; [|discriminate].
  left. eapply learn_raises; eassumption.
Qed.

Lemma run_fails_numerically (inputs : list Input) (g : Game) (e : Py.exn) :
  reachable g -> run inputs g = Raise e -> numeric e.
Proof.
  revert g. induction inputs as [|i rest IH]; simpl; intros g Hg Hrun;
    [discriminate|].
  assert (Hlife : reachable (if done g then new_life g else g) /\
                  done (if done g then new_life g else g) = false).
  { destruct (done g) eqn:Hdone; split; try assumption; try reflexivity.
    apply reach_life; assumption. }
  destruct Hlife as [Hlife Hdone].
  apply bind_Raise in Hrun as [Hrun | (g' & Hframe & Hrun)].
  - eapply frame_fails_numerically; eassumption.
  - apply (IH g'); [|exact Hrun]. eapply reach_frame; eassumption.
Qed.

(** X3. [main] raises neither [IndexError] nor [UnboundLocalError],
    whatever the state the generator starts in and whatever the events,
    the clock readings and the collision answers of the passes: [pipes[0]]
    always finds a pipe, and [old_pipe] and [dead] are bound whenever they
    are read. *)
Theorem main_never_unbound (live0 : generator) (inputs : list Input) :
  main live0 inputs <> Raise Py.IndexError /\
  main live0 inputs <> Raise Py.UnboundLocalError.
Proof.
  split; intros Hrun;
    apply run_fails_numerically in Hrun; try apply reach_first;
    destruct Hrun; discriminate.
Qed.

End Safety.

(* ===================================================================== *)
(** * The score in closed form                                            *)
(* ===================================================================== *)

Lemma ages_at_bounded (n : nat) :
  Forall (fun a => 1 <= a <= oldest)%nat (ages_at n).
Proof.
  unfold ages_at, youngest, oldest.
  destruct (n =? 0)%nat; [constructor|].
  destruct ((180 <? n)%nat && (_ <=? 36)%nat) eqn:Hboth.
  - apply andb_true_iff in Hboth as [_ Hle].
    apply Nat.leb_le in Hle.
    repeat (apply Forall_cons; split); try apply Forall_nil; modlia.
  - repeat (apply Forall_cons; split); try apply Forall_nil; modlia.
Qed.

Lemma drop_old_Forall (P : nat -> Prop) (ages : list nat) :
  Forall P ages -> Forall P (drop_old ages).
Proof.
  induction 1 as [|a ages Ha Hages IH]; simpl; [constructor|].
  destruct (a <? oldest)%nat; [constructor; assumption | exact IH].
Qed.

(** The test of the score loop on a pipe of age [a]. *)
Lemma score_test (b : Bird.t) (p : PipePair.t) (a : nat) :
  Bird.x b = 50 -> PipePair.x p = pipe_x a -> (a <= S oldest)%nat ->
  Py.lt (Py.Float (PipePair.x p + Py.nearest_double PipePair.WIDTH))
        (Py.Int (Bird.x b))
  = (counted_age <=? a)%nat.
Proof.
  intros -> -> Ha. rewrite pipe_x_by_threes.
  apply (checked_upto
    (fun a => Bool.eqb
       (Py.lt (Py.Float (Nat.iter a (fun x => (x - 3)%float) 567%float
                         + Py.nearest_double PipePair.WIDTH))
              (Py.Int 50))
       (counted_age <=? a)%nat) (S oldest)) in Ha; [|vm_compute; reflexivity].
  apply eqb_prop in Ha. exact Ha.
Qed.

Lemma fmap_cons_inv {A B C} (f : A -> C) (h : B -> C) (x : A) (xs : list A)
    (y : B) (ys : list B) :
  f <$> (x :: xs) = h <$> (y :: ys) -> f x = h y /\ f <$> xs = h <$> ys.
Proof. intros Heq. injection Heq as Hhead Htail. split; assumption. Qed.

Lemma seen_aged (p : PipePair.t) (a : nat) :
  seen p = aged a ->
  PipePair.x p = pipe_x a /\
  PipePair.score_counted p = (counted_age <=? a)%nat.
Proof.
  intros Hp. split;
    [exact (f_equal fst Hp) | exact (f_equal snd Hp)].
Qed.

Lemma drop_invisible_seen (queue : list PipePair.t) (ages : list nat) :
  seen <$> queue = aged <$> ages ->
  Forall (fun a => a <= oldest)%nat ages ->
  seen <$> drop_invisible queue = aged <$> drop_old ages.
Proof.
  revert ages. induction queue as [|p rest IH]; intros ages Hx Hold.
  - destruct ages; [reflexivity | discriminate].
  - destruct ages as [|a ages]; [discriminate|].
    pose proof Hx as Hall.
    apply fmap_cons_inv in Hx as [Hp Hrest].
    apply seen_aged in Hp as [Hxp _].
    apply Forall_cons in Hold as [Ha Hold].
    cbn [drop_invisible drop_old]. rewrite (pipe_x_visible p a Hxp Ha).
    destruct (a <? oldest)%nat; [exact Hall | apply IH; assumption].
Qed.

(** The score loop on a queue that has just been moved: the pipes that
    reach the age of 200 are counted, once. *)
Lemma score_pipes_aged (b : Bird.t) (sc : Z) (queue : list PipePair.t)
    (ages : list nat) :
  Bird.x b = 50 ->
  seen <$> queue = aged <$> ages ->
  Forall (fun a => a <= oldest)%nat ages ->
  (score_pipes b sc (PipePair.update <$> queue)).1
  = sc + Z.of_nat (length (List.filter (fun a => (a =? counted_age)%nat)
                                       (S <$> ages))) /\
  seen <$> (score_pipes b sc (PipePair.update <$> queue)).2
  = aged <$> (S <$> ages).
Proof.
  intros Hb. revert sc ages.
  induction queue as [|p rest IH]; intros sc ages Hseen Hold.
  - destruct ages; [|discriminate]. simpl. split; [lia | reflexivity].
  - destruct ages as [|a ages]; [discriminate|].
    apply fmap_cons_inv in Hseen as [Hp Hrest].
    apply seen_aged in Hp as [Hx Hc].
    apply Forall_cons in Hold as [Ha Hold].
    assert (Hmoved : PipePair.x (PipePair.update p) = pipe_x (S a))
      by (cbn [PipePair.x PipePair.update]; rewrite Hx; reflexivity).
    change (PipePair.update <$> p :: rest)
      with (PipePair.update p :: (PipePair.update <$> rest)).
    change (S <$> a :: ages) with (S a :: (S <$> ages)).
    cbn [score_pipes]. unfold score_pipe.
    rewrite (score_test b (PipePair.update p) (S a) Hb Hmoved)
      by (unfold oldest in *; lia).
    replace (PipePair.score_counted (PipePair.update p))
      with (counted_age <=? a)%nat by (symmetry; exact Hc).
    specialize (IH (if (counted_age <=? S a)%nat && negb (counted_age <=? a)%nat
                    then sc + 1 else sc) ages Hrest Hold).
    destruct ((counted_age <=? S a)%nat && negb (counted_age <=? a)%nat)
      eqn:Hnew;
      destruct (score_pipes b _ (PipePair.update <$> rest)) as [sc' rest'];
      cbn [fst snd] in *; destruct IH as [-> Hq];
      rewrite !fmap_cons, Hq; cbn [List.filter].
    + apply andb_true_iff in Hnew as [Hnow Hwas].
      apply negb_true_iff in Hwas.
      apply Nat.leb_le in Hnow. apply Nat.leb_gt in Hwas.
      unfold counted_age in Hnow, Hwas.
      assert (Hage : (S a =? counted_age)%nat = true)
        by (apply Nat.eqb_eq; unfold counted_age; lia).
      rewrite Hage. cbn [length]. split; [lia|].
      f_equal. unfold seen, aged.
      cbn [PipePair.x PipePair.score_counted PipePair.count_score].
      rewrite Hmoved. f_equal. symmetry. apply Nat.leb_le.
      unfold counted_age. lia.
    + assert (Hage : (S a =? counted_age)%nat = false).
      { apply Nat.eqb_neq. intros Heq.
        rewrite Heq, Nat.leb_refl in Hnew. cbn [andb] in Hnew.
        apply negb_false_iff, Nat.leb_le in Hnew.
        unfold counted_age in *. lia. }
      rewrite Hage. split; [reflexivity|].
      f_equal. unfold seen, aged. rewrite Hmoved. f_equal.
      cbn [PipePair.score_counted PipePair.update]. rewrite Hc.
      apply Nat.eqb_neq in Hage.
      destruct (Nat.leb_spec counted_age a);
        destruct (Nat.leb_spec counted_age (S a)); try reflexivity; lia.
Qed.

(** A pass counts the pipe that is 200 passes old at its end. *)
Lemma score_step (n : nat) :
  score_at n
  + Z.of_nat (length (List.filter (fun a => (a =? counted_age)%nat)
                                  (ages_at (S n))))
  = score_at (S n).
Proof.
  unfold score_at, ages_at, youngest, counted_age.
  destruct (Nat.eqb_spec (S n) 0) as [Hs|_]; [lia|].
  destruct (Nat.ltb_spec 180 (S n)) as [Hsn|Hsn];
    destruct (Nat.leb_spec ((S n - 1) mod 180 + 1) 36) as [Hsa|Hsa];
    cbn [andb List.filter];
    repeat match goal with
    | |- context [(?a =? 200)%nat] => destruct (Nat.eqb_spec a 200)
    end;
    cbn [length]; modlia.
Qed.

Section ScoreCount.
Context `{Random} `{Libm} `{Pygame}.

Lemma spawn_seen (g : Game) :
  paused g = false ->
  seen <$> pipes (spawn g)
  = (seen <$> pipes g)
      ++ if frame_clock g mod frames_per_pipe =? 0 then [aged 0] else [].
Proof.
  intros Hpaused. unfold spawn. rewrite Hpaused. simpl.
  destruct (frame_clock g mod frames_per_pipe =? 0); simpl.
  - destruct (PipePair.init _ _ _) as [[pp rs] lv] eqn:Hinit. simpl.
    rewrite fmap_app. simpl. f_equal. f_equal.
    unfold PipePair.init in Hinit.
    destruct (randint _ _ _) as [drawn s1]. injection Hinit as <- _ _.
    reflexivity.
  - rewrite app_nil_r. reflexivity.
Qed.

Lemma bird_x_update (b : Bird.t) : Bird.x (Bird.update b) = Bird.x b.
Proof. unfold Bird.update. destruct (Py.gt _ _); reflexivity. Qed.

(** Until the world moves, a pass leaves the score alone. *)
Lemma at_check_score (g : Game) : score (at_check g) = score g.
Proof.
  unfold at_check, spawn, decide.
  destruct (fps_to_next_action g =? 0).
  - destruct (determine_action _ _ _ _ _ _) as [[a rs] lv].
    destruct a; simpl; destruct (negb _); simpl;
      try destruct (PipePair.init _ _ _) as [[pp rs'] lv']; reflexivity.
  - destruct (negb _); simpl;
      try destruct (PipePair.init _ _ _) as [[pp rs'] lv']; reflexivity.
Qed.

Lemma passes_score (i : Input) (g3 g4 g7 : Game) (g : Game) :
  interval i g = Ok g3 ->
  bonus g3 = Ok g4 ->
  death i (handle_events (events i) g4) = Ok g7 ->
  score g7 = score g /\ pipes g7 = pipes g /\ bird g7 = bird g.
Proof.
  intros Hint Hbon Hdie.
  rewrite handle_events_spec in Hdie.
  unfold interval in Hint. unfold bonus in Hbon. unfold death in Hdie.
  destruct (existsb quits (events i)); block_inv; repeat split; fields.
Qed.

Lemma reachable_score (g : Game) :
  reachable g ->
  exists n : nat,
    frame_clock g = Z.of_nat n /\
    seen <$> pipes g = aged <$> ages_at n /\
    score g = score_at n /\
    Bird.x (bird g) = 50.
Proof.
  induction 1 as [live0 | g i g' Hg IH Hdone Hrun | g Hg IH Hdone].
  - exists 0%nat. repeat split.
  - destruct IH as (n & Hclock & Hseen & Hscore & Hbird).
    pose proof (reachable_not_paused g Hg) as Hpaused.
    pose proof (frame_world i g g' Hpaused Hrun) as (_ & Hnext & _).
    apply frame_steps in Hrun as (g3 & g4 & g7 & Hint & Hbon & Hdie & ->);
      [|exact Hpaused].
    destruct (passes_score i g3 g4 g7 _ Hint Hbon Hdie) as (Hs7 & Hp7 & Hb7).
    rewrite at_check_score in Hs7.
    assert (Hp : pipes (at_check g) = pipes (spawn g)).
    { pose proof (spawn_world g (set_fps_to_next_action
                                   (fps_to_next_action (decide g) + 1)
                                   (decide g))) as Hw.
      unfold world at 3 4 in Hw. 
      specialize (Hw ltac:(apply (decide_world g))).
      exact (f_equal (fun w => w.1.1.1.1) Hw). }
    assert (Hbx : Bird.x (bird (at_check g)) = 50).
    { unfold at_check.
      assert (Hsb : forall h, bird (spawn h) = bird h).
      { intros h. unfold spawn. destruct (negb _); [|reflexivity].
        destruct (PipePair.init _ _ _) as [[pp rs] lv]. reflexivity. }
      rewrite Hsb. cbn [bird set_fps_to_next_action].
      destruct (decide_bird g) as [-> | ->]; exact Hbird. }
    assert (Hold : Forall (fun a => a <= oldest)%nat
                     (ages_at n ++ if Z.of_nat n mod frames_per_pipe =? 0
                                   then [0%nat] else [])).
    { apply Forall_app. split.
      - eapply Forall_impl; [apply ages_at_bounded|]. simpl. intros a Ha. lia.
      - destruct (_ =? 0); repeat (apply Forall_cons; split);
          try apply Forall_nil; unfold oldest; lia. }
    assert (Hq : seen <$> drop_invisible (pipes g7)
                 = aged <$> drop_old
                     (ages_at n ++ if Z.of_nat n mod frames_per_pipe =? 0
                                   then [0%nat] else [])).
    { apply drop_invisible_seen; [|exact Hold].
      rewrite Hp7, Hp, (spawn_seen g Hpaused), Hseen, Hclock, fmap_app.
      destruct (Z.of_nat n mod frames_per_pipe =? 0); reflexivity. }
    destruct (score_pipes_aged (Bird.update (bird g7)) (score g7)
                (drop_invisible (pipes g7)) _
                ltac:(rewrite bird_x_update, Hb7; exact Hbx) Hq
                (drop_old_Forall _ _ Hold)) as [Hsc Hqueue].
    rewrite ages_step in Hsc, Hqueue.
    exists (S n). split; [rewrite Hnext; lia|]. unfold advance.
    destruct (score_pipes _ _ _) as [sc queue]. cbn [fst snd] in Hsc, Hqueue.
    cbn [frame_clock pipes score bird set_frame_clock set_score set_pipes
         set_bird].
    split; [exact Hqueue|]. split.
    + rewrite Hsc, Hs7, Hscore. apply score_step.
    + rewrite bird_x_update, Hb7. exact Hbx.
  - exists 0%nat. repeat split.
Qed.

(** X4. The score in closed form.  The score depends on nothing but the
    number of passes the life has made: a pipe is counted in the pass in
    which it becomes 200 passes old, so the first point is scored in pass
    200 of a life and one more every 180 passes; a queued pipe is marked
    as counted exactly when it is 200 passes old or older. *)
Theorem score_closed_form (g : Game) :
  reachable g ->
  exists n : nat,
    frame_clock g = Z.of_nat n /\
    score g = Z.of_nat ((n - 20) / 180) /\
    PipePair.score_counted <$> pipes g
    = (fun a => (200 <=? a)%nat) <$> ages_at n.
Proof.
  intros Hg. destruct (reachable_score g Hg) as (n & Hclock & Hseen & Hsc & _).
  exists n. split; [exact Hclock|]. split; [exact Hsc|].
  apply (f_equal (fmap snd)) in Hseen.
  rewrite <- !list_fmap_compose in Hseen. exact Hseen.
Qed.

End ScoreCount.

(* ===================================================================== *)
(** * What a pass does to the table, the best score and the files         *)
(* ===================================================================== *)

Section Footprint.
Context `{Random} `{Libm} `{Pygame}.

(** The blocks of a pass, whether or not it is left at [continue]. *)
Lemma frame_cases (i : Input) (g g' : Game) :
  frame i g = Ok g' ->
  exists g3 g4,
    interval i (at_check g) = Ok g3 /\
    bonus g3 = Ok g4 /\
    (g' = handle_events (events i) g4 \/
     exists g7,
       death i (handle_events (events i) g4) = Ok g7 /\ g' = advance g7).
Proof.
  intros Hrun. unfold frame in Hrun. fold (at_check g) in Hrun.
  apply bind_Ok in Hrun as (g3 & Hint & Hrun).
  apply bind_Ok in Hrun as (g4 & Hbon & Hrun).
  exists g3, g4. split; [exact Hint|]. split; [exact Hbon|].
  destruct (paused (handle_events (events i) g4)).
  - left. congruence.
  - right. apply bind_Ok in Hrun as (g7 & Hdie & Hrun).
    exists g7. split; [exact Hdie | congruence].
Qed.

(** What the decision and the spawn leave alone. *)
Lemma at_check_keeps (g : Game) :
  dict (at_check g) = dict g /\
  max_score (at_check g) = max_score g /\
  files (at_check g) = files g /\
  done (at_check g) = done g /\
  state (at_check g) = state g /\
  (previous_state (at_check g), previous_action (at_check g))
  = (previous_state g, previous_action g) /\
  (early_state (at_check g), early_action (at_check g))
  = (early_state g, early_action g).
Proof.
  unfold at_check, spawn, decide.
  destruct (fps_to_next_action g =? 0).
  - destruct (determine_action _ _ _ _ _ _) as [[a rs] lv].
    destruct a; simpl; destruct (negb _); simpl;
      try destruct (PipePair.init _ _ _) as [[pp rs'] lv'];
      repeat split.
  - destruct (negb _); simpl;
      try destruct (PipePair.init _ _ _) as [[pp rs'] lv'];
      repeat split.
Qed.

Lemma advance_keeps (g : Game) :
  dict (advance g) = dict g /\
  max_score (advance g) = max_score g /\
  files (advance g) = files g /\
  done (advance g) = done g /\
  (state (advance g), action (advance g)) = (state g, action g) /\
  (previous_state (advance g), previous_action (advance g))
  = (previous_state g, previous_action g).
Proof.
  unfold advance. destruct (score_pipes _ _ _) as [sc queue]. repeat split.
Qed.

Lemma insert_footprint (d : Table) (k : State * bool) (v : Py.num) :
  dom d ⊆ dom (<[k := v]> d) /\
  forall key, key <> k -> <[k := v]> d !! key = d !! key.
Proof.
  split; [set_solver|].
  intros key Hkey. apply lookup_insert_ne. congruence.
Qed.

Lemma interval_table (i : Input) (g g3 : Game) :
  interval i g = Ok g3 ->
  dom (dict g) ⊆ dom (dict g3) /\
  (forall key, key <> (previous_state g, previous_action g) ->
               dict g3 !! key = dict g !! key) /\
  ((early_state g3, early_action g3) = (early_state g, early_action g) \/
   (early_state g3, early_action g3) = (previous_state g, previous_action g)).
Proof.
  unfold interval. intros Hrun.
  destruct (fps_to_next_action g =? 15).
  - destruct (any_collision (ticks_interval i) g || out_of_bounds (bird g));
      block_inv; simpl;
      (split; [set_solver|]);
      (split; [|right; reflexivity]);
      intros key Hkey; apply lookup_insert_ne; congruence.
  - injection Hrun as <-. split; [reflexivity|]. split; [reflexivity|].
    left. reflexivity.
Qed.

Lemma bonus_table (g g4 : Game) :
  bonus g = Ok g4 ->
  dom (dict g) ⊆ dom (dict g4) /\
  (forall key, key <> (early_state g, early_action g) ->
               dict g4 !! key = dict g !! key) /\
  (previous_state g4, previous_action g4)
  = (previous_state g, previous_action g) /\
  (state g4, action g4) = (state g, action g).
Proof.
  unfold bonus. intros Hrun.
  block_inv; (split; [|split; [|split]]); simpl;
    try reflexivity;
    try (intros key Hkey; apply lookup_insert_ne; congruence);
    set_solver.
Qed.

Lemma death_table (i : Input) (g g7 : Game) :
  death i g = Ok g7 ->
  dom (dict g) ⊆ dom (dict g7) /\
  (forall key, key <> (state g, action g) ->
               key <> (previous_state g, previous_action g) ->
               dict g7 !! key = dict g !! key) /\
  (previous_state g7, previous_action g7)
  = (previous_state g, previous_action g) /\
  (state g7, action g7) = (state g, action g).
Proof.
  unfold death. intros Hrun.
  destruct (_ || _).
  - apply bind_Ok in Hrun as (q & _ & Hrun). injection Hrun as <-.
    destruct (_ <? _); simpl;
      (split; [set_solver|]); (split; [|split; reflexivity]);
      intros key Hk1 Hk2;
      rewrite lookup_insert_ne by congruence;
      apply lookup_insert_ne; congruence.
  - injection Hrun as <-. split; [set_solver|]. repeat split.
Qed.

Lemma handle_events_keeps (es : list Event) (g : Game) :
  dict (handle_events es g) = dict g /\
  max_score (handle_events es g) = max_score g /\
  (previous_state (handle_events es g), previous_action (handle_events es g))
  = (previous_state g, previous_action g) /\
  (state (handle_events es g), action (handle_events es g))
  = (state g, action g).
Proof.
  rewrite handle_events_spec. destruct (existsb quits es); repeat split.
Qed.

(** What a pass does to the table. *)
Lemma frame_table (i : Input) (g g' : Game) :
  frame i g = Ok g' ->
  dom (dict g) ⊆ dom (dict g') /\
  forall key,
    key <> (early_state g, early_action g) ->
    key <> (previous_state g, previous_action g) ->
    key <> (previous_state g', previous_action g') ->
    key <> (state g', action g') ->
    dict g' !! key = dict g !! key.
Proof.
  intros Hrun.
  apply frame_cases in Hrun as (g3 & g4 & Hint & Hbon & Hrest).
  destruct (at_check_keeps g) as (Hd1 & _ & _ & _ & _ & Hp1 & He1).
  destruct (interval_table _ _ _ Hint) as (Hdom3 & Hd3 & He3).
  destruct (bonus_table _ _ Hbon) as (Hdom4 & Hd4 & Hp4 & Hs4).
  destruct (handle_events_keeps (events i) g4) as (Hd6 & _ & Hp6 & Hs6).
  rewrite Hd1 in Hdom3, Hd3. rewrite Hp1 in Hd3. rewrite He1, Hp1 in He3.
  assert (Hearly : forall key,
             key <> (early_state g, early_action g) ->
             key <> (previous_state g, previous_action g) ->
             dict g4 !! key = dict g !! key).
  { intros key Hk1 Hk2. rewrite Hd4, Hd3; [reflexivity | exact Hk2 |].
    destruct He3 as [He | He]; rewrite He; assumption. }
  destruct Hrest as [-> | (g7 & Hdie & ->)].
  - rewrite Hd6. split; [clear - Hdom3 Hdom4; set_solver|].
    intros key Hk1 Hk2 _ _. apply Hearly; assumption.
  - destruct (death_table _ _ _ Hdie) as (Hdom7 & Hd7 & Hp7 & Hs7).
    destruct (advance_keeps g7) as (Hda & _ & _ & _ & Hsa & Hpa).
    rewrite Hda, Hsa, Hpa. rewrite Hd6 in Hdom7, Hd7.
    split; [clear - Hdom3 Hdom4 Hdom7; set_solver|].
    intros key Hk1 Hk2 Hk3 Hk4.
    rewrite Hd7; [apply Hearly; assumption | congruence | congruence].
Qed.

(** X5. A pass changes at most four entries of the table, and removes
    none: the entries of the early pair and of the previous pair the pass
    starts with (the bonus and the interval update) and the entries of the
    previous pair and of the current pair it ends with (the two writes of
    the death check). *)
Theorem pass_changes_four_entries (i : Input) (g g' : Game)
    (key : State * bool) :
  frame i g = Ok g' ->
  (is_Some (dict g !! key) -> is_Some (dict g' !! key)) /\
  (key <> (early_state g, early_action g) ->
   key <> (previous_state g, previous_action g) ->
   key <> (previous_state g', previous_action g') ->
   key <> (state g', action g') ->
   dict g' !! key = dict g !! key).
Proof.
  intros Hrun. destruct (frame_table i g g' Hrun) as [Hdom Hsame].
  split; [|apply Hsame].
  intros Hkey. apply elem_of_dom. apply Hdom. apply elem_of_dom. exact Hkey.
Qed.

Lemma run_table (inputs : list Input) (g g' : Game) :
  run inputs g = Ok g' -> dom (dict g) ⊆ dom (dict g').
Proof.
  revert g. induction inputs as [|i rest IH]; simpl; intros g Hrun.
  - injection Hrun as <-. reflexivity.
  - apply bind_Ok in Hrun as (g1 & Hframe & Hrun).
    apply frame_table in Hframe as [Hdom _].
    apply IH in Hrun.
    assert (Hlife : dict (if done g then new_life g else g) = dict g)
      by (destruct (done g); reflexivity).
    rewrite Hlife in Hdom. set_solver.
Qed.

(** X6. The table never forgets.  Whatever the passes and the lives of a
    run, a key that has an entry keeps one: entries are overwritten, never
    deleted, and a new life starts with the table of the life before. *)
Theorem table_never_shrinks (live0 : generator) (inputs more : list Input)
    (g g' : Game) (key : State * bool) :
  main live0 inputs = Ok g ->
  main live0 (inputs ++ more) = Ok g' ->
  is_Some (dict g !! key) -> is_Some (dict g' !! key).
Proof.
  unfold main. intros Hg Hg' Hkey.
  assert (Hrun : run more g = Ok g').
  { revert Hg Hg'. generalize (first_life live0). 
    induction inputs as [|i rest IH]; simpl; intros g0 Hg Hg'.
    - injection Hg as <-. exact Hg'.
    - apply bind_Ok in Hg as (g1 & Hframe & Hg).
      rewrite Hframe, bind_ret in Hg'. apply (IH g1); assumption. }
  apply run_table in Hrun.
  apply elem_of_dom. apply Hrun. apply elem_of_dom. exact Hkey.
Qed.

(** The flags, the best score and the files through the blocks. *)
Lemma interval_flags (i : Input) (g g3 : Game) :
  interval i g = Ok g3 ->
  done g3 = done g
            || (fps_to_next_action g =? 15)
               && (any_collision (ticks_interval i) g
                   || out_of_bounds (bird g)) /\
  max_score g3 = max_score g /\ files g3 = files g /\ score g3 = score g.
Proof.
  unfold interval. intros Hrun.
  destruct (fps_to_next_action g =? 15).
  - destruct (any_collision (ticks_interval i) g || out_of_bounds (bird g));
      block_inv; simpl; repeat split;
      destruct (done g); reflexivity.
  - injection Hrun as <-. rewrite orb_false_r. repeat split.
Qed.

Lemma bonus_flags (g g4 : Game) :
  bonus g = Ok g4 ->
  done g4 = done g /\ max_score g4 = max_score g /\ files g4 = files g /\
  score g4 = score g.
Proof.
  unfold bonus. intros Hrun. block_inv; repeat split.
Qed.

Lemma death_flags (i : Input) (g g7 : Game) :
  death i g = Ok g7 ->
  done g7 = done g
            || (any_collision (ticks_frame i) g || out_of_bounds (bird g)) /\
  max_score g7
  = (if (any_collision (ticks_frame i) g || out_of_bounds (bird g))
        && (max_score g <? score g)
     then score g else max_score g) /\
  files g7 = files g.
Proof.
  unfold death. intros Hrun.
  destruct (any_collision (ticks_frame i) g || out_of_bounds (bird g)).
  - apply bind_Ok in Hrun as (q & _ & Hrun). injection Hrun as <-.
    cbn [andb]. 
    change (max_score (set_dict _ (set_dict _ (set_done true g))))
      with (max_score g).
    change (score (set_dict _ (set_dict _ (set_done true g))))
      with (score g).
    destruct (max_score g <? score g); simpl; rewrite orb_true_r;
      repeat split.
  - injection Hrun as <-. rewrite orb_false_r. repeat split.
Qed.

(** The world the two collision tests of a pass look at. *)
Lemma passes_world (i : Input) (g g3 g4 : Game) :
  interval i (at_check g) = Ok g3 ->
  bonus g3 = Ok g4 ->
  any_collision (ticks_frame i) (handle_events (events i) g4)
  = any_collision (ticks_frame i) (at_check g) /\
  bird (handle_events (events i) g4) = bird (at_check g) /\
  out_of_bounds (bird (at_check g)) = out_of_bounds (bird g) /\
  score (handle_events (events i) g4) = score g.
Proof.
  intros Hint Hbon.
  destruct (interval_world _ _ _ Hint) as [Hw3 Hb3].
  destruct (bonus_world _ _ Hbon) as [Hw4 Hb4].
  destruct (handle_events_world (events i) g4) as [Hw6 Hb6].
  destruct (interval_flags _ _ _ Hint) as (_ & _ & _ & Hs3).
  destruct (bonus_flags _ _ Hbon) as (_ & _ & _ & Hs4).
  assert (Hp : pipes (handle_events (events i) g4) = pipes (at_check g)).
  { assert (Hw : world (handle_events (events i) g4) = world (at_check g))
      by congruence.
    exact (f_equal (fun w => w.1.1.1.1) Hw). }
  split; [unfold any_collision; rewrite Hp, Hb6, Hb4, Hb3; reflexivity|].
  split; [congruence|]. split.
  - assert (Hsb : forall h, bird (spawn h) = bird h).
    { intros h. unfold spawn. destruct (negb _); [|reflexivity].
      destruct (PipePair.init _ _ _) as [[pp rs] lv]. reflexivity. }
    unfold at_check. rewrite Hsb. cbn [bird set_fps_to_next_action].
    destruct (decide_bird g) as [-> | ->]; reflexivity.
  - rewrite handle_events_spec.
    destruct (existsb quits (events i)); cbn [score save_and_stop set_files
      set_done]; rewrite Hs4, Hs3; apply at_check_score.
Qed.

(** X7. When a life ends.  A pass sets [done] exactly when the interval
    check (the pass in which the frame counter reaches 15) finds a
    collision, when one of its events quits, or when its death check finds
    a collision or finds the bird at or beyond the upper or lower edge of
    the window; the bird's position is the one the pass starts with, so
    the decision of the pass cannot avert it. *)
Theorem life_ends (i : Input) (g g' : Game) :
  paused g = false ->
  frame i g = Ok g' ->
  done g' = done g
            || (fps_to_next_action g =? 14)
               && any_collision (ticks_interval i) (at_check g)
            || existsb quits (events i)
            || any_collision (ticks_frame i) (at_check g)
            || out_of_bounds (bird g).
Proof.
  intros Hpaused Hrun.
  apply frame_steps in Hrun as (g3 & g4 & g7 & Hint & Hbon & Hdie & ->);
    [|exact Hpaused].
  destruct (passes_world i g g3 g4 Hint Hbon) as (Hc & Hb & Ho & _).
  destruct (at_check_keeps g) as (_ & _ & _ & Hd1 & _).
  destruct (interval_flags _ _ _ Hint) as (Hd3 & _).
  destruct (bonus_flags _ _ Hbon) as (Hd4 & _).
  destruct (death_flags _ _ _ Hdie) as (Hd7 & _).
  destruct (advance_keeps g7) as (_ & _ & _ & Hda & _).
  rewrite Hda, Hd7, Hc, Hb, Ho.
  assert (Hd6 : done (handle_events (events i) g4)
                = done g4 || existsb quits (events i)).
  { rewrite handle_events_spec.
    destruct (existsb quits (events i)); simpl;
      [rewrite orb_true_r | rewrite orb_false_r]; reflexivity. }
  rewrite Hd6, Hd4, Hd3, Hd1, Ho, at_check_counter.
  replace (fps_to_next_action g + 1 =? 15) with (fps_to_next_action g =? 14)
    by (destruct (Z.eqb_spec (fps_to_next_action g) 14);
        destruct (Z.eqb_spec (fps_to_next_action g + 1) 15); lia).
  destruct (done g), (fps_to_next_action g =? 14),
    (any_collision (ticks_interval i) (at_check g)),
    (existsb quits (events i)),
    (any_collision (ticks_frame i) (at_check g)),
    (out_of_bounds (bird g)); reflexivity.
Qed.

(** X8. The best score.  A pass changes [max_score] only when its death
    check fires and the score of the life exceeds it, and then to that
    score: a life that ends at a quit request, or at a collision that
    only the interval check sees, leaves the best score as it is. *)
Theorem best_score_at_death (i : Input) (g g' : Game) :
  paused g = false ->
  frame i g = Ok g' ->
  max_score g'
  = (if (any_collision (ticks_frame i) (at_check g) || out_of_bounds (bird g))
        && (max_score g <? score g)
     then score g else max_score g).
Proof.
  intros Hpaused Hrun.
  apply frame_steps in Hrun as (g3 & g4 & g7 & Hint & Hbon & Hdie & ->);
    [|exact Hpaused].
  destruct (passes_world i g g3 g4 Hint Hbon) as (Hc & Hb & Ho & Hs).
  destruct (at_check_keeps g) as (_ & Hm1 & _).
  destruct (interval_flags _ _ _ Hint) as (_ & Hm3 & _).
  destruct (bonus_flags _ _ Hbon) as (_ & Hm4 & _).
  destruct (handle_events_keeps (events i) g4) as (_ & Hm6 & _).
  destruct (death_flags _ _ _ Hdie) as (_ & Hm7 & _).
  destruct (advance_keeps g7) as (_ & Hma & _).
  rewrite Hma, Hm7, Hc, Hb, Ho, Hs, Hm6, Hm4, Hm3, Hm1. reflexivity.
Qed.

(** X9. What is saved, and when.  A pass writes files only if one of its
    events quits; it then writes to [foo.txt] the table as the bonus of
    the pass leaves it, before the death check of the same pass, and to
    [max_score.txt] the best score the pass starts with. *)
Theorem quit_saves (i : Input) (g g' : Game) :
  frame i g = Ok g' ->
  if existsb quits (events i)
  then exists g4,
         interval i (at_check g) ≫= bonus = Ok g4 /\
         files g' = <["max_score.txt" := str_int (max_score g)]>
                      (<["foo.txt" := str_dict (dict g4)]> (files g))
  else files g' = files g.
Proof.
  intros Hrun.
  apply frame_cases in Hrun as (g3 & g4 & Hint & Hbon & Hrest).
  destruct (at_check_keeps g) as (_ & Hm1 & Hf1 & _).
  destruct (interval_flags _ _ _ Hint) as (_ & Hm3 & Hf3 & _).
  destruct (bonus_flags _ _ Hbon) as (_ & Hm4 & Hf4 & _).
  assert (Hf6 : files (handle_events (events i) g4)
                = if existsb quits (events i)
                  then <["max_score.txt" := str_int (max_score g)]>
                         (<["foo.txt" := str_dict (dict g4)]> (files g))
                  else files g).
  { rewrite handle_events_spec.
    destruct (existsb quits (events i)); simpl; congruence. }
  assert (Hf : files g' = files (handle_events (events i) g4)).
  { destruct Hrest as [-> | (g7 & Hdie & ->)]; [reflexivity|].
    destruct (death_flags _ _ _ Hdie) as (_ & _ & Hf7).
    destruct (advance_keeps g7) as (_ & _ & Hfa & _). congruence. }
  rewrite Hf, Hf6.
  destruct (existsb quits (events i)); [|reflexivity].
  exists g4. split; [|reflexivity]. rewrite Hint. exact Hbon.
Qed.

End Footprint.

(* ===================================================================== *)
(** * The image of a pipe                                                 *)
(* ===================================================================== *)

(** The images for the ten values the draw can take: the pieces are drawn
    at distinct heights, the multiples of 32 above [32 * (11 - drawn)] and
    from [512 - 32 * (drawn + 1)] on. *)
Lemma image_rows (drawn : Z) :
  1 <= drawn <= 10 ->
  NoDup (snd <$> image (10 - drawn) drawn) /\
  (forall y,
     y ∈ snd <$> image (10 - drawn) drawn <->
     y mod 32 = 0 /\
     (0 <= y < 32 * (11 - drawn) \/ 512 - 32 * (drawn + 1) <= y < 512)) /\
  (forall y,
     (pipe_end, y) ∈ image (10 - drawn) drawn <->
     y = 32 * (10 - drawn) \/ y = 512 - 32 * (drawn + 1)).
Proof.
  intros Hdrawn.
  assert (Hcases : drawn = 1 \/ drawn = 2 \/ drawn = 3 \/ drawn = 4 \/
                   drawn = 5 \/ drawn = 6 \/ drawn = 7 \/ drawn = 8 \/
                   drawn = 9 \/ drawn = 10) by lia.
  clear Hdrawn.
  repeat (destruct Hcases as [-> | Hcases]); try subst drawn.
  all: split; [apply (bool_decide_unpack _); vm_compute; exact I|].
  all: split; intros y.
  all: match goal with
       | |- context [snd <$> ?l] =>
           let rows := fresh "rows" in
           set (rows := snd <$> l); vm_compute in rows; subst rows
       | |- context [image ?t ?b] =>
           let pieces := fresh "pieces" in
           set (pieces := image t b); vm_compute in pieces; subst pieces
       end.
  all: rewrite ?elem_of_cons, ?elem_of_nil.
  all: split.
  all: try (intros [Hmod Hy]; modlia).
  all: try (intros [-> | ->]; tauto).
  all: intros Hy; repeat destruct Hy as [Hy | Hy]; try contradiction;
         try discriminate.
  all: try (subst y; split; [reflexivity | lia]).
  all: injection Hy as ->; lia.
Qed.

Section PipeImage.
Context `{Random}.

(** X10. The image of a pipe.  For a draw between 1 and
    [total_pipe_body_pieces], as [randint] gives it, the two pipes of a
    pair have twelve pieces together and leave a gap of 128 pixels, four
    bird heights; the top
    pipe has 1 to 10 pieces and the bottom pipe 2 to 11, and the pieces
    blitted onto the image are drawn at distinct heights, which are
    exactly the multiples of [PIECE_HEIGHT] above [top_height_px] and from
    [WIN_HEIGHT - bottom_height_px] on, as these read once [__init__] has
    added the end pieces to the counts; the end pieces are the two pieces
    next to the gap. *)
Theorem pipe_image_tiles (serial : nat) (random_state : generator * generator)
    (live : generator) :
  let drawn := (randint 1 PipePair.total_pipe_body_pieces random_state.1).1 in
  let p := (PipePair.init serial random_state live).1.1 in
  let blits := image (PipePair.total_pipe_body_pieces - drawn) drawn in
  1 <= drawn <= PipePair.total_pipe_body_pieces ->
  PipePair.top_pieces p + PipePair.bottom_pieces p = 12 /\
  WIN_HEIGHT - bottom_height_px p - top_height_px p = 4 * Bird.HEIGHT /\
  1 <= PipePair.top_pieces p <= 10 /\
  2 <= PipePair.bottom_pieces p <= 11 /\
  NoDup (snd <$> blits) /\
  (forall y,
     y ∈ snd <$> blits <->
     y mod PipePair.PIECE_HEIGHT = 0 /\
     (0 <= y < top_height_px p \/
      WIN_HEIGHT - bottom_height_px p <= y < WIN_HEIGHT)) /\
  (forall y,
     (pipe_end, y) ∈ blits <->
     y = top_height_px p - PipePair.PIECE_HEIGHT \/
     y = WIN_HEIGHT - bottom_height_px p).
Proof.
  intros drawn p blits Hdrawn.
  assert (Hp : PipePair.top_pieces p = 11 - drawn /\
               PipePair.bottom_pieces p = drawn + 1).
  { subst p drawn. unfold PipePair.init.
    destruct (randint _ _ _) as [d s]. cbn [fst snd PipePair.top_pieces
      PipePair.bottom_pieces].
    change PipePair.total_pipe_body_pieces with 10. split; lia. }
  destruct Hp as [Htop Hbottom]. subst blits. clearbody drawn p.
  change PipePair.total_pipe_body_pieces with 10 in *.
  destruct (image_rows drawn Hdrawn) as (Hnodup & Hrows & Hends).
  unfold top_height_px, bottom_height_px.
  rewrite Htop, Hbottom.
  change PipePair.PIECE_HEIGHT with 32. change WIN_HEIGHT with 512.
  change Bird.HEIGHT with 32.
  split; [lia|]. split; [lia|]. split; [lia|]. split; [lia|].
  split; [exact Hnodup|]. split.
  - intros y. rewrite (Hrows y).
    replace ((11 - drawn) * 32) with (32 * (11 - drawn)) by lia.
    replace ((drawn + 1) * 32) with (32 * (drawn + 1)) by lia.
    reflexivity.
  - intros y. rewrite (Hends y). split; intros [-> | ->]; lia.
Qed.

End PipeImage.

(* ===================================================================== *)
(** * When the bonus is granted                                           *)
(* ===================================================================== *)

Lemma head_fmap {A B} (f : A -> B) (l : list A) :
  head (f <$> l) = f <$> head l.
Proof. destruct l; reflexivity. Qed.

(** A queue whose front pipe is younger than [oldest] is not pruned. *)
Lemma drop_invisible_young (queue : list PipePair.t) (ages : list nat) :
  PipePair.x <$> queue = pipe_x <$> ages ->
  Forall (fun a => a < oldest)%nat ages ->
  drop_invisible queue = queue.
Proof.
  intros Hx Hyoung. destruct queue as [|p rest]; [reflexivity|].
  destruct ages as [|a ages]; [discriminate|].
  apply fmap_cons_inv in Hx as [Hp _].
  apply Forall_cons in Hyoung as [Ha _].
  cbn [drop_invisible].
  rewrite (pipe_x_visible p a Hp) by lia.
  destruct (Nat.ltb_spec a oldest); [reflexivity | lia].
Qed.

(** The ages before a pass prunes the queue are below [oldest] unless the
    pass starts 36 passes after a spawn but the first. *)
Lemma ages_young (n : nat) :
  (n <= 180 \/ n mod 180 <> 36)%nat ->
  Forall (fun a => a < oldest)%nat
         (ages_at n ++ if Z.of_nat n mod frames_per_pipe =? 0
                       then [0%nat] else []).
Proof.
  intros Hn. apply Forall_app. split.
  - unfold ages_at, youngest, oldest.
    destruct (Nat.eqb_spec n 0); [constructor|].
    destruct (Nat.ltb_spec 180 n) as [Hbig|Hsmall];
      destruct (Nat.leb_spec ((n - 1) mod 180 + 1) 36) as [Hle|Hgt];
      cbn [andb];
      repeat (apply Forall_cons; split); try apply Forall_nil; modlia.
  - destruct (_ =? 0); repeat (apply Forall_cons; split);
      try apply Forall_nil; unfold oldest; lia.
Qed.

Section BonusTiming.
Context `{Random} `{Libm} `{Pygame}.

Lemma interval_dead (i : Input) (g g3 : Game) :
  interval i g = Ok g3 ->
  if fps_to_next_action g =? 15
  then dead g3 = Some (any_collision (ticks_interval i) g
                       || out_of_bounds (bird g))
  else dead g3 = dead g.
Proof.
  unfold interval. intros Hrun.
  destruct (fps_to_next_action g =? 15).
  - destruct (any_collision (ticks_interval i) g || out_of_bounds (bird g));
      block_inv; reflexivity.
  - injection Hrun as <-. reflexivity.
Qed.

(** The bonus block: it changes the state only if the remembered pipe is
    not the front pipe, the score exceeds the best score and [dead] is
    [False]; the front pipe is then the remembered one. *)
Lemma bonus_cases (g g4 : Game) :
  bonus g = Ok g4 ->
  g4 = g \/
  (old_pipe g <> PipePair.ident <$> head (pipes g) /\
   max_score g < score g /\
   dead g = Some false /\
   old_pipe g4 = PipePair.ident <$> head (pipes g)).
Proof.
  unfold bonus, front. intros Hrun.
  destruct (old_pipe g) as [r|] eqn:Hold; [|discriminate].
  destruct (pipes g) as [|p rest] eqn:Hpipes; [discriminate|].
  rewrite bind_ret in Hrun.
  destruct (Nat.eqb_spec r (PipePair.ident p)) as [Heq|Hne];
    cbn [negb andb] in Hrun; [left; congruence|].
  destruct (Z.ltb_spec (max_score g) (score g)) as [Hlt|Hge];
    [|left; congruence].
  destruct (dead g) as [[|]|]; [left; congruence | | discriminate].
  rewrite add_100, bind_ret in Hrun. injection Hrun as <-.
  right. repeat split; [|exact Hlt]. simpl. congruence.
Qed.

Lemma bonus_dead (g g4 : Game) :
  bonus g = Ok g4 -> dead g4 = dead g /\ pipes g4 = pipes g.
Proof.
  unfold bonus. intros Hrun. block_inv; split; simpl; congruence.
Qed.

(** A bonus block that leaves the state as it is. *)
Lemma bonus_idle (g : Game) :
  bonus g = Ok g ->
  old_pipe g = PipePair.ident <$> head (pipes g) \/
  score g <= max_score g \/
  dead g <> Some false.
Proof.
  intros Hrun.
  destruct (Z.ltb_spec (max_score g) (score g)) as [Hlt|Hge];
    [|right; left; exact Hge].
  destruct (bonus_cases g g Hrun) as [_ | (Hstale & _ & _ & Hnew)];
    [|contradiction].
  unfold bonus, front in Hrun.
  destruct (old_pipe g) as [r|] eqn:Hold; [|discriminate].
  destruct (pipes g) as [|p rest] eqn:Hpipes; [discriminate|].
  rewrite bind_ret in Hrun.
  destruct (Nat.eqb_spec r (PipePair.ident p)) as [Heq|Hne];
    [left; simpl; congruence|].
  apply Z.ltb_lt in Hlt. rewrite Hlt in Hrun. cbn [negb andb] in Hrun.
  destruct (dead g) as [[|]|]; [right; right; discriminate | | discriminate].
  rewrite add_100, bind_ret in Hrun. injection Hrun as Hsame.
  apply (f_equal old_pipe) in Hsame. simpl in Hsame. congruence.
Qed.

(** Between two points the score stays. *)
Lemma score_at_stays (n : nat) :
  (S n mod 180 <> 20)%nat -> score_at (S n) = score_at n.
Proof. unfold score_at. intros Hn. f_equal. modlia. Qed.

(** What a pass hands on of the memory, the flags and the scores. *)
Lemma pass_memo (i : Input) (g g' : Game) :
  paused g = false ->
  frame i g = Ok g' ->
  exists g3 g4,
    interval i (at_check g) = Ok g3 /\
    bonus g3 = Ok g4 /\
    pipes g3 = pipes (spawn g) /\
    old_pipe g3 = old_pipe (spawn g) /\
    max_score g3 = max_score g /\
    score g3 = score g /\
    (done g' = false -> done g3 = false) /\
    max_score g <= max_score g' /\
    PipePair.ident <$> pipes g'
    = PipePair.ident <$> drop_invisible (pipes (spawn g)) /\
    old_pipe g' = old_pipe g4 /\
    dead g' = dead g4.
Proof.
  intros Hpaused Hrun.
  apply frame_steps in Hrun as (g3 & g4 & g7 & Hint & Hbon & Hdie & ->);
    [|exact Hpaused].
  exists g3, g4. split; [exact Hint|]. split; [exact Hbon|].
  destruct (at_check_memo g Hpaused) as (Hp1 & Ho1 & _).
  destruct (at_check_keeps g) as (_ & Hm1 & _).
  destruct (interval_memo _ _ _ Hint) as (Hp3 & Ho3 & _).
  destruct (interval_flags _ _ _ Hint) as (_ & Hm3 & _ & Hs3).
  destruct (bonus_flags _ _ Hbon) as (Hd4 & Hm4 & _ & Hs4).
  destruct (bonus_world _ _ Hbon) as [Hw4 _].
  destruct (later_memo _ _ _ Hdie) as (Hp7 & Ho7 & Hdead7).
  destruct (handle_events_keeps (events i) g4) as (_ & Hm6 & _).
  destruct (death_flags _ _ _ Hdie) as (Hd7 & Hm7 & _).
  destruct (advance_memo g7) as (Hpa & Hoa & Hdeada).
  destruct (advance_keeps g7) as (_ & Hma & _ & Hda & _).
  assert (Hp4 : pipes g4 = pipes g3)
    by exact (f_equal (fun w => w.1.1.1.1) Hw4).
  split; [congruence|]. split; [congruence|].
  split; [rewrite Hm3; exact Hm1|].
  split; [rewrite Hs3; apply at_check_score|].
  split.
  { rewrite Hda, Hd7. intros Hdone.
    apply orb_false_iff in Hdone as [Hdone _].
    rewrite handle_events_spec in Hdone.
    destruct (existsb quits (events i)); [discriminate|]. congruence. }
  split.
  { rewrite Hma, Hm7.
    assert (Hm : max_score (handle_events (events i) g4) = max_score g)
      by congruence.
    destruct (Z.ltb_spec (max_score (handle_events (events i) g4))
                         (score (handle_events (events i) g4)));
      destruct (any_collision (ticks_frame i) (handle_events (events i) g4)
                || out_of_bounds _); cbn [andb]; lia. }
  split; [rewrite Hpa; congruence|].
  split; congruence.
Qed.

(** The invariant: once a life has made 15 passes and goes on, [dead] is
    [False]; and the remembered pipe is the front pipe, except in the pass
    after the front pipe has left the screen (37 passes after a spawn but
    the first) and, if the bonus was not granted then because the score
    does not exceed the best score, until the next spawn. *)
Lemma reachable_fresh (g : Game) :
  reachable g ->
  (15 <= frame_clock g -> done g = false -> dead g = Some false) /\
  (1 <= frame_clock g ->
     old_pipe g = PipePair.ident <$> head (pipes g) \/
     (180 < frame_clock g /\ frame_clock g mod 180 = 37) \/
     (180 < frame_clock g /\
      (38 <= frame_clock g mod 180 \/ frame_clock g mod 180 = 0) /\
      score g <= max_score g)).
Proof.
  induction 1 as [live0 | g i g' Hg IH Hdone Hrun | g Hg IH Hdone].
  - split; simpl; intros; lia.
  - destruct IH as [IHdead IHfresh].
    pose proof (reachable_not_paused g Hg) as Hpaused.
    pose proof (reach_frame g i g' Hg Hdone Hrun) as Hg'.
    destruct (reachable_counter g Hg) as [Hpos Hfps].
    destruct (reachable_score g Hg) as (n & Hclock & Hseen & Hscore & _).
    destruct (reachable_score g' Hg') as (n' & Hclock' & _ & Hscore' & _).
    destruct (reachable_memo g Hg) as [Hbound Hunbound].
    pose proof (frame_world i g g' Hpaused Hrun) as (_ & Hnext & _).
    assert (Hn' : n' = S n) by lia. subst n'.
    destruct (pass_memo i g g' Hpaused Hrun)
      as (g3 & g4 & Hint & Hbon & Hp3 & Ho3 & Hm3 & Hs3 & Hd3 & Hmax &
          Hids & Hold' & Hdead').
    pose proof (interval_dead _ _ _ Hint) as Hdead3.
    pose proof (interval_flags _ _ _ Hint) as (Hdone3 & _).
    rewrite at_check_counter, Hfps in Hdead3, Hdone3.
    destruct (at_check_memo g Hpaused) as (_ & _ & Hdead1).
    destruct (at_check_keeps g) as (_ & _ & _ & Hdone1 & _).
    rewrite Hdead1 in Hdead3. rewrite Hdone1, Hdone in Hdone3.
    destruct (spawn_memo g Hpaused) as [_ Hspawn].
    assert (Hx : PipePair.x <$> pipes (spawn g)
                 = pipe_x <$> (ages_at n ++
                                 if Z.of_nat n mod frames_per_pipe =? 0
                                 then [0%nat] else [])).
    { rewrite (spawn_positions g Hpaused), Hclock, fmap_app.
      apply (f_equal (fmap fst)) in Hseen.
      rewrite <- !list_fmap_compose in Hseen.
      change (fst ∘ seen) with PipePair.x in Hseen.
      change (fst ∘ aged) with pipe_x in Hseen.
      rewrite Hseen.
      destruct (Z.of_nat n mod frames_per_pipe =? 0); reflexivity. }
    destruct (bonus_dead _ _ Hbon) as [Hdead4 Hp4].
    split.
    + (* [dead] *)
      intros Hlate Hgoes. rewrite Hdead', Hdead4.
      specialize (Hd3 Hgoes). rewrite Hd3 in Hdone3.
      destruct (Z.eqb_spec (frame_clock g mod 15 + 1) 15) as [H15|H15].
      * rewrite Hdead3. cbn [orb andb] in Hdone3. congruence.
      * rewrite Hdead3. apply IHdead; [modlia | exact Hdone].
    + intros _.
      assert (Hcase : (180 < n /\ n mod 180 = 36)%nat \/
                      (n <= 180 \/ n mod 180 <> 36)%nat) by modlia.
      destruct Hcase as [[Hbig Hleave]|Hyoung].
      { right. left. split; [lia | modlia]. }
      rewrite (drop_invisible_young _ _ Hx (ages_young n Hyoung)) in Hids.
      apply (f_equal head) in Hids. rewrite !head_fmap in Hids.
      rewrite Hids, Hold'. rewrite Hp3 in *.
      destruct (bonus_cases _ _ Hbon) as [-> | (_ & _ & _ & Hnew)];
        [|left; rewrite Hnew, Hp3; reflexivity].
      rewrite Ho3.
      destruct (Z.eqb_spec (frame_clock g mod frames_per_pipe) 0)
        as [Hdue|Hdue].
      { destruct Hspawn as (pp & -> & _ & ->). left. reflexivity. }
      destruct Hspawn as [Hq Hold]. rewrite Hq, Hold in *.
      assert (Hn : n <> 0%nat)
        by (intros ->; apply Hdue; rewrite Hclock; reflexivity).
      unfold frames_per_pipe in Hdue.
      destruct (IHfresh ltac:(lia)) as [Hfresh | [[Hbig Hmod] | Hstale]].
      * left. exact Hfresh.
      * destruct (bonus_idle g3 Hbon) as [Hfresh | [Hle | Hdead]].
        -- left. rewrite Ho3, Hp3 in Hfresh. exact Hfresh.
        -- right. right. split; [lia|]. split; [left; modlia|].
           rewrite Hscore', score_at_stays, <- Hscore by modlia.
           rewrite Hs3, Hm3 in Hle. lia.
        -- exfalso. apply Hdead.
           destruct (Z.eqb_spec (frame_clock g mod 15 + 1) 15) as [H15|H15];
             [exfalso; modlia|].
           rewrite Hdead3. apply IHdead; [lia | exact Hdone].
      * destruct Hstale as (Hbig & Hmod & Hle).
        right. right. split; [lia|]. split; [modlia|].
        rewrite Hscore', score_at_stays, <- Hscore by modlia. lia.
  - split; simpl; intros; lia.
Qed.

(** X11. The bonus is granted at most once per pipe, in the pass after the
    pipe has left the screen.  The bonus block of a pass changes the state
    only if the pass starts with a frame count of 217, 397, 577, ...: the
    front pipe, spawned 217 passes earlier, was dropped in the pass
    before.  (Lemma [reachable_fresh] has the reason: in every other pass
    the remembered pipe is the front pipe, or the score does not exceed
    the best score.) *)
Theorem bonus_once_per_pipe (i : Input) (g g3 g4 : Game) :
  reachable g ->
  interval i (at_check g) = Ok g3 ->
  bonus g3 = Ok g4 ->
  g4 <> g3 ->
  217 <= frame_clock g /\ frame_clock g mod 180 = 37.
Proof.
  intros Hg Hint Hbon Hchanged.
  pose proof (reachable_not_paused g Hg) as Hpaused.
  destruct (reachable_fresh g Hg) as [_ Hfresh].
  destruct (reachable_counter g Hg) as [Hpos _].
  destruct (at_check_memo g Hpaused) as (Hp1 & Ho1 & _).
  destruct (at_check_keeps g) as (_ & Hm1 & _).
  destruct (interval_memo _ _ _ Hint) as (Hp3 & Ho3 & _).
  destruct (interval_flags _ _ _ Hint) as (_ & Hm3 & _ & Hs3).
  rewrite at_check_score in Hs3.
  destruct (spawn_memo g Hpaused) as [_ Hspawn].
  destruct (bonus_cases _ _ Hbon) as [-> | (Hstale & Hlt & _)];
    [contradiction|].
  rewrite Ho3, Hp3, Ho1, Hp1 in Hstale.
  destruct (Z.eqb_spec (frame_clock g mod frames_per_pipe) 0) as [Hdue|Hdue].
  { destruct Hspawn as (pp & Hq & _ & Hold). congruence. }
  destruct Hspawn as [Hq Hold]. rewrite Hq, Hold in Hstale.
  assert (Hn : 1 <= frame_clock g).
  { destruct (Z.eq_dec (frame_clock g) 0) as [Hz|Hz]; [|lia].
    exfalso. apply Hdue. rewrite Hz. reflexivity. }
  unfold frames_per_pipe in Hdue.
  destruct (Hfresh Hn) as [Hsame | [[Hbig Hmod] | (Hbig & Hmod & Hle)]].
  - contradiction.
  - split; [modlia | exact Hmod].
  - lia.
Qed.

End BonusTiming.

(* ===================================================================== *)
(** * The generator between two lives                                     *)
(* ===================================================================== *)

Section Generator.
Context `{Random} `{Libm} `{Pygame}.

Lemma determine_action_live (st : State) (d : Table)
    (rs : generator * generator) (lv : generator) (sc ms : Z) :
  (determine_action st d rs lv sc ms).2
  = (determine_action st d rs lv sc ms).1.2.2.
Proof.
  unfold determine_action.
  destruct (randint 1 10 rs.2) as [value s1].
  destruct ((value <? 3) && (ms <=? sc)).
  - destruct (randint 0 1 s1) as [coin s2]. destruct (coin =? 1); reflexivity.
  - destruct (Py.gt _ _); reflexivity.
Qed.

(** The decision leaves the generator in the exploration state. *)
Lemma decide_live (g : Game) :
  if fps_to_next_action g =? 0
  then live (decide g) = (random_state (decide g)).2
  else live (decide g) = live g /\ random_state (decide g) = random_state g.
Proof.
  unfold decide. destruct (fps_to_next_action g =? 0); [|split; reflexivity].
  pose proof (determine_action_live (state g) (dict g) (random_state g)
                (live g) (score g) (max_score g)) as Hlive.
  destruct (determine_action _ _ _ _ _ _) as [[a rs] lv]. simpl in Hlive.
  destruct a; simpl; exact Hlive.
Qed.

(** A spawn leaves it in the obstacle state. *)
Lemma spawn_live (g : Game) :
  paused g = false ->
  if frame_clock g mod frames_per_pipe =? 0
  then live (spawn g) = (random_state (spawn g)).1
  else live (spawn g) = live g /\ random_state (spawn g) = random_state g.
Proof.
  intros Hpaused. unfold spawn. rewrite Hpaused. simpl.
  destruct (frame_clock g mod frames_per_pipe =? 0); simpl;
    [|split; reflexivity].
  unfold PipePair.init. destruct (randint _ _ _) as [drawn s1]. reflexivity.
Qed.

(** Nothing else draws. *)
Lemma passes_live (i : Input) (g g3 g4 g7 : Game) :
  interval i g = Ok g3 ->
  bonus g3 = Ok g4 ->
  death i (handle_events (events i) g4) = Ok g7 ->
  live (advance g7) = live g /\
  random_state (advance g7) = random_state g.
Proof.
  intros Hint Hbon Hdie.
  assert (Ha : live (advance g7) = live g7 /\
               random_state (advance g7) = random_state g7).
  { unfold advance. destruct (score_pipes _ _ _) as [sc queue].
    split; reflexivity. }
  destruct Ha as [-> ->].
  rewrite handle_events_spec in Hdie.
  unfold interval in Hint. unfold bonus in Hbon. unfold death in Hdie.
  destruct (existsb quits (events i)); block_inv; split; fields.
Qed.

Lemma reachable_live (g : Game) :
  reachable g ->
  exists n : nat,
    frame_clock g = Z.of_nat n /\
    live g = if pipe_drew_last n
             then (random_state g).1 else (random_state g).2.
Proof.
  induction 1 as [live0 | g i g' Hg IH Hdone Hrun | g Hg IH Hdone].
  - exists 0%nat. split; reflexivity.
  - destruct IH as (n & Hclock & Hlive).
    pose proof (reachable_not_paused g Hg) as Hpaused.
    destruct (reachable_counter g Hg) as [_ Hfps].
    pose proof (frame_world i g g' Hpaused Hrun) as (_ & Hnext & _).
    apply frame_steps in Hrun as (g3 & g4 & g7 & Hint & Hbon & Hdie & ->);
      [|exact Hpaused].
    destruct (passes_live i _ g3 g4 g7 Hint Hbon Hdie) as [-> ->].
    exists (S n). split; [lia|].
    set (h := set_fps_to_next_action (fps_to_next_action (decide g) + 1)
                (decide g)).
    change (at_check g) with (spawn h).
    assert (Hh : frame_clock h = frame_clock g /\ paused h = false).
    { pose proof (decide_world g) as Hw. split.
      - exact (f_equal (fun w => w.1.1.1.2) Hw).
      - rewrite <- Hpaused. exact (f_equal (fun w => w.2) Hw). }
    destruct Hh as [Hch Hph].
    pose proof (spawn_live h Hph) as Hspawn. rewrite Hch, Hclock in Hspawn.
    pose proof (decide_live g) as Hdecide. rewrite Hfps, Hclock in Hdecide.
    change (live h) with (live (decide g)) in Hspawn.
    change (random_state h) with (random_state (decide g)) in Hspawn.
    unfold pipe_drew_last in *. unfold frames_per_pipe in Hspawn.
    destruct (Z.eqb_spec (Z.of_nat n mod 180) 0) as [Hdue|Hdue].
    + rewrite Hspawn.
      destruct (Nat.eqb_spec (S n) 0) as [Hz|_]; [lia|].
      destruct (Nat.ltb_spec ((S n - 1) mod 180) 15) as [_|Hge];
        [reflexivity | exfalso; modlia].
    + destruct Hspawn as [-> ->].
      destruct (Z.eqb_spec (Z.of_nat n mod 15) 0) as [Hturn|Hturn].
      * rewrite Hdecide.
        destruct (Nat.eqb_spec (S n) 0) as [Hz|_]; [lia|].
        destruct (Nat.ltb_spec ((S n - 1) mod 180) 15) as [Hlt|_];
          [exfalso; modlia | reflexivity].
      * destruct Hdecide as [-> ->]. rewrite Hlive.
        destruct (Nat.eqb_spec n 0) as [Hz|_];
          [exfalso; apply Hturn; rewrite Hz; reflexivity|].
        destruct (Nat.eqb_spec (S n) 0) as [Hz|_]; [lia|].
        cbn [orb].
        destruct (Nat.ltb_spec ((n - 1) mod 180) 15);
          destruct (Nat.ltb_spec ((S n - 1) mod 180) 15);
          try reflexivity; exfalso; modlia.
  - exists 0%nat. split; reflexivity.
Qed.

(** X12. The generator between two lives.  A life starts by taking the
    state of the module-level generator as the exploration state of its
    agent.  That state is the one the last draw left: the obstacle stream
    if the life before ended within 15 passes of a spawn (or in its first
    pass), and the exploration stream otherwise.  In the first case the
    draws of the agent in the new life continue the obstacle stream, which
    is a function of [seed 0] and of the number of pipes spawned. *)
Theorem exploration_inherits (g : Game) :
  reachable g ->
  exists n : nat,
    frame_clock g = Z.of_nat n /\
    (random_state (new_life g)).2
    = if pipe_drew_last n
      then obstacle_stream ((n + 179) / 180)
      else (random_state g).2.
Proof.
  intros Hg.
  destruct (reachable_live g Hg) as (n & Hclock & Hlive).
  destruct (reachable_layout g Hg) as (n' & Hclock' & Hlayout).
  assert (n' = n) by lia. subst n'.
  exists n. split; [exact Hclock|].
  change ((random_state (new_life g)).2) with (live g).
  rewrite Hlive, <- layout_stream, <- Hlayout. reflexivity.
Qed.

End Generator.

(* ===================================================================== *)
(** * The encoded state as a function of the frame count                  *)
(* ===================================================================== *)

(** The encoder on a pipe of age [a]: the horizontal offset is
    [567 - 3a - 50], an integer. *)
Lemma new_state_horizontal (b : Bird.t) (p : PipePair.t) (dead : bool)
    (s : State) (a : nat) :
  new_state b p dead = Ok s ->
  PipePair.x p = pipe_x a ->
  (a <= oldest)%nat ->
  s.1.2 = 517 - 3 * Z.of_nat a /\ s.2 = dead.
Proof.
  unfold new_state. intros Hs Hx Ha.
  apply bind_Ok in Hs as (dy & _ & Hs).
  apply bind_Ok in Hs as (vertical & _ & Hs).
  apply bind_Ok in Hs as (dx & Hdx & Hs).
  apply bind_Ok in Hs as (horizontal & Hh & Hs).
  injection Hs as <-. split; [|reflexivity]. cbn [fst snd].
  assert (H50 : Py.float_of_int 50 = Ok 50%float)
    by (vm_compute; reflexivity).
  unfold Py.sub, Py.arith, Py.to_float in Hdx.
  rewrite H50 in Hdx. injection Hdx as <-.
  rewrite Hx, pipe_x_by_threes in Hh. cbn [Py.int] in Hh.
  apply (checked_upto
    (fun a => match Py.int_of_float
                      (Nat.iter a (fun x => (x - 3)%float) 567%float - 50)
              with
              | Ok z => z =? 517 - 3 * Z.of_nat a
              | Raise _ => false
              end) oldest) in Ha; [|vm_compute; reflexivity].
  rewrite Hh in Ha. apply Z.eqb_eq in Ha. exact Ha.
Qed.

Section Encoder.
Context `{Random} `{Libm} `{Pygame}.

(** The interval check encodes the front pipe. *)
Lemma interval_state (i : Input) (g g3 : Game) :
  interval i g = Ok g3 ->
  fps_to_next_action g = 15 ->
  exists p rest,
    pipes g = p :: rest /\
    new_state (bird g) p
      (any_collision (ticks_interval i) g || out_of_bounds (bird g))
    = Ok (state g3).
Proof.
  unfold interval, front. intros Hrun Hfps. rewrite Hfps in Hrun.
  cbn [Z.eqb Pos.eqb] in Hrun.
  assert (Hfront : exists p rest, pipes g = p :: rest).
  { destruct (any_collision (ticks_interval i) g || out_of_bounds (bird g));
      cbn [pipes set_done set_dead] in Hrun;
      destruct (pipes g) as [|p rest]; try discriminate; eauto. }
  destruct Hfront as (p & rest & Hp). exists p, rest.
  split; [exact Hp|].
  destruct (any_collision (ticks_interval i) g || out_of_bounds (bird g));
    cbn [pipes bird set_done set_dead] in Hrun;
    rewrite Hp, bind_ret in Hrun;
    apply bind_Ok in Hrun as (next & Hnext & Hrun);
    apply bind_Ok in Hrun as (q & _ & Hrun);
    injection Hrun as <-; exact Hnext.
Qed.

(** X13. The encoded state as a function of the frame count.  The pass of
    an interval check (it starts with the frame counter at 14) encodes
    the front pipe of the queue, which is not the next pipe ahead once the
    bird has passed it: after the pass the horizontal offset of [state] is
    [517 - 3a] for the age [a] of the oldest queued pipe, a function of
    the frame count alone; and the flag of [state] is the death the check
    found. *)
Theorem encoded_state (i : Input) (g g' : Game) :
  reachable g ->
  frame i g = Ok g' ->
  fps_to_next_action g = 14 ->
  exists n a : nat,
    frame_clock g = Z.of_nat n /\
    head (ages_at n) = Some a /\
    (state g').1.2 = 517 - 3 * Z.of_nat a /\
    (state g').2 = any_collision (ticks_interval i) (at_check g)
                   || out_of_bounds (bird g).
Proof.
  intros Hg Hrun Hfps.
  pose proof (reachable_not_paused g Hg) as Hpaused.
  destruct (reachable_counter g Hg) as [Hpos Hcount].
  destruct (reachable_ages g Hg) as (n & Hclock & Hages).
  apply frame_steps in Hrun as (g3 & g4 & g7 & Hint & Hbon & Hdie & ->);
    [|exact Hpaused].
  destruct (passes_world i g g3 g4 Hint Hbon) as (_ & _ & Hout & _).
  destruct (at_check_memo g Hpaused) as (Hp1 & _).
  destruct (spawn_memo g Hpaused) as [_ Hspawn].
  destruct (Z.eqb_spec (frame_clock g mod frames_per_pipe) 0) as [Hdue|Hdue];
    [unfold frames_per_pipe in Hdue; exfalso; modlia|].
  destruct Hspawn as [Hq _].
  destruct (interval_state i (at_check g) g3 Hint) as (p & rest & Hp & Hnew);
    [rewrite at_check_counter; lia|].
  rewrite Hp1, Hq in Hp. rewrite Hp in Hages.
  destruct (ages_at n) as [|a ages] eqn:Hn; [discriminate|].
  apply fmap_cons_inv in Hages as [Hx _].
  assert (Ha : (a <= oldest)%nat).
  { pose proof (ages_at_bounded n) as Hall. rewrite Hn in Hall.
    apply Forall_cons in Hall as [Ha _]. lia. }
  destruct (new_state_horizontal _ _ _ _ a Hnew Hx Ha) as [Hh Hflag].
  destruct (bonus_table _ _ Hbon) as (_ & _ & _ & Hs4).
  destruct (handle_events_keeps (events i) g4) as (_ & _ & _ & Hs6).
  destruct (death_table _ _ _ Hdie) as (_ & _ & _ & Hs7).
  destruct (advance_keeps g7) as (_ & _ & _ & _ & Hsa & _).
  assert (Hstate : state (advance g7) = state g3).
  { transitivity (state g7); [exact (f_equal fst Hsa)|].
    transitivity (state (handle_events (events i) g4));
      [exact (f_equal fst Hs7)|].
    transitivity (state g4); [exact (f_equal fst Hs6)|].
    exact (f_equal fst Hs4). }
  exists n, a. split; [exact Hclock|]. split; [rewrite Hn; reflexivity|].
  rewrite Hstate, Hh, Hflag, Hout. split; reflexivity.
Qed.

End Encoder.

(* ===================================================================== *)
(** * Runs on the demonstration host                                      *)
(* ===================================================================== *)

Import Demo.

(** The states of the demonstration flight are reachable. *)
Lemma the_reachable (live0 : list Z) (inputs : list Input) :
  main live0 inputs = Ok (the (main live0 inputs)) ->
  reachable (the (main live0 inputs)).
Proof. apply main_reachable. Qed.

Lemma flight_reachable (n : nat) :
  flight n = Ok (at_frame n) -> reachable (at_frame n).
Proof. apply the_reachable. Qed.

Lemma sinking_reachable (n : nat) :
  sinking n = Ok (sunk n) -> reachable (sunk n).
Proof. apply the_reachable. Qed.



(** The first interval check of the demonstration flight: the table is
    empty, the bird is alive, and the update stores 0.7. *)
Lemma interval_learns_witness :
  fps_to_next_action (before_interval (at_frame 14)) = 15 /\
  exists g',
    interval quiet (before_interval (at_frame 14)) = Ok g' /\
    dict g' = <[(75, 517, false, false) := Py.Float 0.7]> ∅.
Proof.
  split; [vm_compute; reflexivity|].
  edestruct (interval_learns quiet (before_interval (at_frame 14)))
    as (g' & Hrun & Hdict & _);
    [vm_compute; reflexivity | vm_compute; reflexivity
    | vm_compute; reflexivity | vm_compute; reflexivity |].
  exists g'. split; [exact Hrun|].
  rewrite Hdict. vm_compute. reflexivity.
Defined.

(** The pass in which the sinking bird leaves the window. *)
Lemma death_learns_witness :
  any_collision (ticks_frame quiet) (before_death (sunk 85))
    || out_of_bounds (bird (before_death (sunk 85))) = true /\
  exists g',
    death quiet (before_death (sunk 85)) = Ok g' /\
    get (dict g') (28, 295, false, false) = Py.Int (-1000) /\
    get (dict g') (-16, 340, false, false) = Py.Float (-700).
Proof.
  split; [vm_compute; reflexivity|].
  edestruct (death_learns quiet (before_death (sunk 85)))
    as (g' & Hrun & _ & Hdict & _);
    [vm_compute; reflexivity | vm_compute; reflexivity |].
  exists g'. split; [exact Hrun|].
  rewrite Hdict. split; vm_compute; reflexivity.
Defined.

(** The pass after the first pipe has left the screen, with one point
    scored and no best score yet. *)
Lemma bonus_adds_100_witness :
  old_pipe (before_bonus (at_frame 217)) = Some 0%nat /\
  dead (before_bonus (at_frame 217)) = Some false /\
  max_score (before_bonus (at_frame 217)) < score (before_bonus (at_frame 217)) /\
  exists g',
    bonus (before_bonus (at_frame 217)) = Ok g' /\
    get (dict (before_bonus (at_frame 217))) (-60, -20, false, false)
    = Py.Float 0.7 /\
    get (dict g') (-60, -20, false, false) = Py.Float 100.7.
Proof.
  split; [vm_compute; reflexivity|].
  split; [vm_compute; reflexivity|].
  split; [vm_compute; reflexivity|].
  edestruct (bonus_adds_100 (before_bonus (at_frame 217)))
    as ((g' & Hrun & Hdict & _) & _);
    [vm_compute; reflexivity | vm_compute; reflexivity
    | vm_compute; discriminate | vm_compute; reflexivity
    | vm_compute; reflexivity |].
  exists g'. split; [exact Hrun|].
  rewrite Hdict. split; vm_compute; reflexivity.
Defined.



(** Closing the window in the first pass of the first life. *)
Lemma quit_starts_new_life_witness :
  existsb quits (events closing) = true /\
  frame closing takeoff = Ok closed /\
  done closed = true /\
  run [closing; quiet] takeoff = Ok reborn /\
  frame_clock reborn = 1 /\ done reborn = false.
Proof.
  assert (Hquit : frame closing takeoff = Ok closed)
    by (vm_compute; reflexivity).
  assert (Hnext : frame quiet (new_life closed) = Ok reborn)
    by (vm_compute; reflexivity).
  destruct (quit_starts_new_life closing quiet takeoff closed reborn
              eq_refl eq_refl eq_refl Hquit Hnext)
    as (Hdone & _ & _ & Hrun & Hclock & _).
  split; [reflexivity|]. split; [exact Hquit|]. split; [exact Hdone|].
  split; [exact Hrun|]. split; [exact Hclock|].
  vm_compute. reflexivity.
Defined.

(** Pass 201 of the demonstration flight: two pipes are queued. *)
Lemma queue_left_to_right_witness :
  reachable (at_frame 201) /\ left_to_right (pipes (at_frame 201)).
Proof.
  assert (Hreach : reachable (at_frame 201))
    by (apply flight_reachable; vm_compute; reflexivity).
  split; [exact Hreach|].
  exact (queue_left_to_right (at_frame 201) Hreach).
Defined.

(** C8, as stated, fails.  After 201 passes the queue holds the first pipe
    at x = -36 in front of the second at x = 504: x goes up, not down, from
    front to back, and the front pipe is behind the bird (its right edge,
    44, is left of the bird's x, 50). *)
Lemma queue_not_decreasing :
  reachable (at_frame 201) /\
  PipePair.x <$> pipes (at_frame 201) = [(-36)%float; 504%float] /\
  ~ decreasing_x (pipes (at_frame 201)) /\
  ~ front_upcoming (bird (at_frame 201)) (pipes (at_frame 201)).
Proof.
  split; [apply flight_reachable; vm_compute; reflexivity|].
  split; [vm_compute; reflexivity|].
  assert (Hpipes : pipes (at_frame 201)
                   = [PipePair.Build 0 (-36) true 10 2;
                      PipePair.Build 1 504 false 7 5])
    by (vm_compute; reflexivity).
  rewrite Hpipes. split.
  - unfold decreasing_x. intros Hsorted.
    apply StronglySorted_inv in Hsorted as [_ Hfront].
    apply Forall_cons in Hfront as [Hgt _].
    vm_compute in Hgt. discriminate.
  - unfold front_upcoming. vm_compute. discriminate.
Qed.

(** Two runs with different exploration scripts, 30 passes into the first
    life of the one and into the second life of the other. *)
Lemma obstacle_layout_deterministic_witness :
  reachable (at_frame 30) /\ reachable (sunk 116) /\
  frame_clock (at_frame 30) = frame_clock (sunk 116) /\
  (random_state (at_frame 30)).2 <> (random_state (sunk 116)).2 /\
  layout (at_frame 30) = layout (sunk 116).
Proof.
  assert (Hr1 : reachable (at_frame 30))
    by (apply flight_reachable; vm_compute; reflexivity).
  assert (Hr2 : reachable (sunk 116))
    by (apply sinking_reachable; vm_compute; reflexivity).
  assert (Hc : frame_clock (at_frame 30) = frame_clock (sunk 116))
    by (vm_compute; reflexivity).
  split; [exact Hr1|]. split; [exact Hr2|]. split; [exact Hc|].
  split; [vm_compute; discriminate|].
  exact (proj1 (obstacle_layout_deterministic _ _ Hr1 Hr2 Hc)).
Defined.

(** The third interval check of the demonstration flight runs in the pass
    that starts with a frame count of 44. *)
Lemma decision_cadence_witness :
  reachable (at_frame 44) /\
  fps_to_next_action (at_frame 44) = 14 /\
  state (at_frame 45) <> state (at_frame 44).
Proof.
  assert (Hreach : reachable (at_frame 44))
    by (apply flight_reachable; vm_compute; reflexivity).
  split; [exact Hreach|].
  destruct (decision_cadence (at_frame 44) Hreach) as (_ & Hfps & _).
  split; [rewrite Hfps; vm_compute; reflexivity|].
  vm_compute. discriminate.
Defined.

(** Pass 201 of the demonstration flight: the first pipe, 201 passes old,
    and the second, 21 passes old. *)
Lemma queue_closed_form_witness :
  reachable (at_frame 201) /\
  exists n : nat,
    frame_clock (at_frame 201) = Z.of_nat n /\
    PipePair.x <$> pipes (at_frame 201) = pipe_x <$> ages_at n.
Proof.
  assert (Hreach : reachable (at_frame 201))
    by (apply flight_reachable; vm_compute; reflexivity).
  split; [exact Hreach|].
  destruct (queue_closed_form (at_frame 201) Hreach)
    as (n & Hclock & Hages & _).
  exists n. split; assumption.
Defined.

(** The demonstration flight has one point after 200 passes. *)
Lemma score_closed_form_witness :
  reachable (at_frame 200) /\
  exists n : nat,
    frame_clock (at_frame 200) = Z.of_nat n /\
    score (at_frame 200) = Z.of_nat ((n - 20) / 180).
Proof.
  assert (Hreach : reachable (at_frame 200))
    by (apply flight_reachable; vm_compute; reflexivity).
  split; [exact Hreach|].
  destruct (score_closed_form (at_frame 200) Hreach)
    as (n & Hclock & Hscore & _).
  exists n. split; assumption.
Defined.

(** The fourth interval check of the demonstration flight leaves the entry
    of the state a life starts with as it is. *)
Lemma pass_changes_four_entries_witness :
  frame quiet (at_frame 59) = Ok (at_frame 60) /\
  is_Some (dict (at_frame 60) !! (75, 517, false, false)) /\
  dict (at_frame 60) !! (75, 517, false, false)
  = dict (at_frame 59) !! (75, 517, false, false).
Proof.
  assert (Hrun : frame quiet (at_frame 59) = Ok (at_frame 60))
    by (vm_compute; reflexivity).
  split; [exact Hrun|].
  destruct (pass_changes_four_entries quiet (at_frame 59) (at_frame 60)
              (75, 517, false, false) Hrun) as [Hkeep Hsame].
  split.
  - apply Hkeep. vm_compute. eexists. reflexivity.
  - apply Hsame; vm_compute; discriminate.
Defined.

(** The entry of the first interval check is there 200 passes later. *)
Lemma table_never_shrinks_witness :
  main pilot (repeat quiet 15) = Ok (at_frame 15) /\
  main pilot (repeat quiet 15 ++ repeat quiet 200) = Ok (at_frame 215) /\
  is_Some (dict (at_frame 215) !! (75, 517, false, false)).
Proof.
  assert (Hfirst : main pilot (repeat quiet 15) = Ok (at_frame 15))
    by (vm_compute; reflexivity).
  assert (Hlater : main pilot (repeat quiet 15 ++ repeat quiet 200)
                   = Ok (at_frame 215))
    by (vm_compute; reflexivity).
  split; [exact Hfirst|]. split; [exact Hlater|].
  apply (@table_never_shrinks random libm pygame pilot (repeat quiet 15) (repeat quiet 200)
           (at_frame 15) (at_frame 215) (75, 517, false, false)
           Hfirst Hlater).
  vm_compute. eexists. reflexivity.
Defined.

(** The pass in which the sinking bird is found below the window. *)
Lemma life_ends_witness :
  paused (sunk 85) = false /\
  frame quiet (sunk 85) = Ok (sunk 86) /\
  out_of_bounds (bird (sunk 85)) = true /\
  done (sunk 86) = true.
Proof.
  assert (Hrun : frame quiet (sunk 85) = Ok (sunk 86))
    by (vm_compute; reflexivity).
  split; [reflexivity|]. split; [exact Hrun|].
  assert (Hout : out_of_bounds (bird (sunk 85)) = true)
    by (vm_compute; reflexivity).
  split; [exact Hout|].
  rewrite (life_ends quiet (sunk 85) (sunk 86) eq_refl Hrun), Hout.
  apply orb_true_r.
Defined.

(** The demonstration flight ends in pass 271 with one point, the first
    best score. *)
Lemma best_score_at_death_witness :
  paused (at_frame 271) = false /\
  frame quiet (at_frame 271) = Ok (at_frame 272) /\
  max_score (at_frame 271) = 0 /\
  max_score (at_frame 272) = 1.
Proof.
  assert (Hrun : frame quiet (at_frame 271) = Ok (at_frame 272))
    by (vm_compute; reflexivity).
  split; [reflexivity|]. split; [exact Hrun|].
  split; [vm_compute; reflexivity|].
  rewrite (best_score_at_death quiet (at_frame 271) (at_frame 272)
             eq_refl Hrun).
  vm_compute. reflexivity.
Defined.

(** Closing the window in the first pass: the empty table and the best
    score 0 are written. *)
Lemma quit_saves_witness :
  frame closing takeoff = Ok closed /\
  files closed = <["max_score.txt" := str_int 0]>
                   (<["foo.txt" := str_dict ∅]> ∅).
Proof.
  assert (Hrun : frame closing takeoff = Ok closed)
    by (vm_compute; reflexivity).
  split; [exact Hrun|].
  pose proof (quit_saves closing takeoff closed Hrun) as Hsaved.
  change (existsb quits (events closing)) with true in Hsaved.
  destruct Hsaved as (g4 & Hg4 & ->).
  assert (Hdict : dict g4 = ∅).
  { assert (Hpass : interval closing (at_check takeoff) ≫= bonus
                    = Ok (at_check takeoff)) by (vm_compute; reflexivity).
    rewrite Hpass in Hg4. injection Hg4 as <-. vm_compute. reflexivity. }
  rewrite Hdict. reflexivity.
Defined.

(** The first pipe of a life on the demonstration host: the draw is 1, the
    top pipe has ten pieces and the bottom pipe two. *)
Lemma pipe_image_tiles_witness :
  1 <= (randint 1 PipePair.total_pipe_body_pieces (seed 0)).1
    <= PipePair.total_pipe_body_pieces /\
  top_height_px (PipePair.init 0 (seed 0, []) []).1.1 = 320 /\
  WIN_HEIGHT - bottom_height_px (PipePair.init 0 (seed 0, []) []).1.1 = 448 /\
  forall y,
    y ∈ snd <$> image (PipePair.total_pipe_body_pieces - 1) 1 <->
    y mod PipePair.PIECE_HEIGHT = 0 /\
    (0 <= y < 320 \/ 448 <= y < WIN_HEIGHT).
Proof.
  assert (Hdrawn : 1 <= (randint 1 PipePair.total_pipe_body_pieces (seed 0)).1
                     <= PipePair.total_pipe_body_pieces)
    by (vm_compute; split; discriminate).
  split; [exact Hdrawn|].
  split; [vm_compute; reflexivity|]. split; [vm_compute; reflexivity|].
  exact (proj1 (proj2 (proj2 (proj2 (proj2 (proj2
           (pipe_image_tiles 0%nat (seed 0, []) [] Hdrawn))))))).
Defined.

(** The bonus of the demonstration flight: the first pipe leaves the
    screen in pass 216, and pass 217 grants the bonus and remembers the
    second pipe. *)
Lemma bonus_once_per_pipe_witness :
  reachable (at_frame 217) /\
  interval quiet (at_check (at_frame 217)) = Ok (before_bonus (at_frame 217)) /\
  bonus (before_bonus (at_frame 217)) = Ok (before_death (at_frame 217)) /\
  old_pipe (before_bonus (at_frame 217)) = Some 0%nat /\
  old_pipe (before_death (at_frame 217)) = Some 1%nat /\
  217 <= frame_clock (at_frame 217) /\
  frame_clock (at_frame 217) mod 180 = 37.
Proof.
  assert (Hreach : reachable (at_frame 217))
    by (apply flight_reachable; vm_compute; reflexivity).
  assert (Hint : interval quiet (at_check (at_frame 217))
                 = Ok (before_bonus (at_frame 217)))
    by (vm_compute; reflexivity).
  assert (Hbon : bonus (before_bonus (at_frame 217))
                 = Ok (before_death (at_frame 217)))
    by (vm_compute; reflexivity).
  assert (Hbefore : old_pipe (before_bonus (at_frame 217)) = Some 0%nat)
    by (vm_compute; reflexivity).
  assert (Hafter : old_pipe (before_death (at_frame 217)) = Some 1%nat)
    by (vm_compute; reflexivity).
  split; [exact Hreach|]. split; [exact Hint|]. split; [exact Hbon|].
  split; [exact Hbefore|]. split; [exact Hafter|].
  apply (bonus_once_per_pipe quiet (at_frame 217)
           (before_bonus (at_frame 217)) (before_death (at_frame 217))
           Hreach Hint Hbon).
  intros Hsame. apply (f_equal old_pipe) in Hsame. congruence.
Defined.

(** The window is closed in the first pass of the first life: the agent of
    the second life draws from the obstacle stream, one draw after
    [seed 0]. *)
Lemma exploration_inherits_witness :
  reachable closed /\
  frame_clock closed = 1 /\
  (random_state (new_life closed)).2 = obstacle_stream 1.
Proof.
  assert (Hrun : frame closing takeoff = Ok closed)
    by (vm_compute; reflexivity).
  assert (Hreach : reachable closed)
    by (apply (reach_frame takeoff closing closed);
        [apply reach_first | reflexivity | exact Hrun]).
  assert (Hone : frame_clock closed = 1) by (vm_compute; reflexivity).
  split; [exact Hreach|]. split; [exact Hone|].
  destruct (exploration_inherits closed Hreach) as (n & Hclock & Hstream).
  assert (Hn : n = 1%nat) by lia. subst n.
  exact Hstream.
Defined.

(** The interval check in pass 209 of the demonstration flight encodes the
    first pipe, 209 passes old and 110 pixels behind the bird's [x], while
    the second pipe is 430 pixels ahead. *)
Lemma encoded_state_witness :
  reachable (at_frame 209) /\
  frame quiet (at_frame 209) = Ok (at_frame 210) /\
  fps_to_next_action (at_frame 209) = 14 /\
  PipePair.x <$> pipes (at_frame 209) = [-60; 480]%float /\
  (state (at_frame 210)).1.2 = -110.
Proof.
  assert (Hreach : reachable (at_frame 209))
    by (apply flight_reachable; vm_compute; reflexivity).
  assert (Hrun : frame quiet (at_frame 209) = Ok (at_frame 210))
    by (vm_compute; reflexivity).
  assert (Hfps : fps_to_next_action (at_frame 209) = 14)
    by (vm_compute; reflexivity).
  split; [exact Hreach|]. split; [exact Hrun|]. split; [exact Hfps|].
  split; [vm_compute; reflexivity|].
  destruct (encoded_state quiet (at_frame 209) (at_frame 210)
              Hreach Hrun Hfps) as (n & a & Hclock & Hfront & Hoffset & _).
  assert (Hc : frame_clock (at_frame 209) = 209) by (vm_compute; reflexivity).
  assert (Hn : n = 209%nat) by lia. subst n.
  vm_compute in Hfront. injection Hfront as <-. exact Hoffset.
Defined.

(** The agent on two stored values, with the score below the best score:
    it ascends when the entry for ascending is the greater one, and does
    nothing when only the entry for doing nothing is above 0. *)
Lemma determine_action_selects_witness :
  (@determine_action random (75, 517, false)
     (<[(75, 517, false, true) := Py.Float 2.5]>
        (<[(75, 517, false, false) := Py.Float 1]> ∅))
     ([0; 3; 7], pilot) [] 0 1).1.1 = true /\
  (@determine_action random (75, 517, false)
     (<[(75, 517, false, false) := Py.Float 2.5]> ∅)
     ([0; 3; 7], pilot) [] 0 1).1.1 = false.
Proof.
  split.
  - rewrite (proj1 (@determine_action_selects random (75, 517, false)
                      (<[(75, 517, false, true) := Py.Float 2.5]>
                         (<[(75, 517, false, false) := Py.Float 1]> ∅))
                      ([0; 3; 7], pilot) [] 0 1)) by lia.
    vm_compute. reflexivity.
  - rewrite (proj1 (@determine_action_selects random (75, 517, false)
                      (<[(75, 517, false, false) := Py.Float 2.5]> ∅)
                      ([0; 3; 7], pilot) [] 0 1)) by lia.
    vm_compute. reflexivity.
Defined.
